(** * Playlist recommendation service: model of [src/api/app.py]

    The development follows the layout of the server module:

    - [Engine]: the pure matching and ranking function [get_recommendations];
    - [Server]: the process-wide model store ([app.model_data],
      [app.model_last_modified], [app.model_lock]), the loader [load_model],
      the initial load of [initialize_app], the polling loop
      [check_and_reload_model] and the request handler [recommend], written
      in a small state/exception monad that records the events (lock
      operations, disk accesses, store reads and writes) in the order the
      code performs them;
    - [Client]: the command-line client of [src/client/client.py], as far as
      its return values and exit code go;
    - [EngineFacts], [ServerFacts], [ClientFacts]: what is proved about them.

    Python floats (confidences, modification times) are finite and are
    modelled by rationals: every finite binary64 value is a rational, and
    [<], [>] and [==] on finite floats agree with the rational order. *)

From Stdlib Require Import List String Ascii ZArith QArith Bool Lia Lqa.
From Stdlib Require Import Sorting.Sorted Sorting.Permutation.
Import ListNotations.
Open Scope string_scope.
Set Warnings "-register-all".

(* ================================================================== *)
(** ** The recommendation engine *)
(* ================================================================== *)

Module Engine.

(** A rule is the 3-tuple [(antecedent, consequent, confidence)].  Either side
    is a bare item or a [set] of items; for a set, [elems] lists its members
    in the order in which Python iterates over it. *)
Inductive items : Type :=
| Single (s : string)
| ItemSet (elems : list string).

Definition rule : Type := (items * items * Q)%type.

Definition antecedent (r : rule) : items := fst (fst r).
Definition consequent (r : rule) : items := snd (fst r).
Definition confidence (r : rule) : Q := snd r.

(** [if not isinstance(x, set): x = {x}] *)
Definition as_set (x : items) : list string :=
  match x with
  | Single s => [s]
  | ItemSet l => l
  end.

(** [song in input_set]; [input_set = set(input_songs)] is only ever used
    through membership, so the list of liked songs stands for it. *)
Definition mem (s : string) (l : list string) : bool :=
  existsb (String.eqb s) l.

(** [antecedent.issubset(input_set)] *)
Definition issubset (a input_set : list string) : bool :=
  forallb (fun x => mem x input_set) a.

(** The dict [recommendations]: song -> confidence.  A Python dict iterates
    in insertion order and assigning to an existing key keeps its position,
    so the dict is an association list with in-place update. *)
Definition dict : Type := list (string * Q).

Fixpoint dict_get (d : dict) (k : string) : option Q :=
  match d with
  | [] => None
  | (k', v) :: d' => if String.eqb k k' then Some v else dict_get d' k
  end.

Fixpoint dict_set (d : dict) (k : string) (v : Q) : dict :=
  match d with
  | [] => [(k, v)]
  | (k', v') :: d' =>
      if String.eqb k k' then (k', v) :: d' else (k', v') :: dict_set d' k v
  end.

Definition keys (d : dict) : list string := map fst d.

(** [a > b] on confidences *)
Definition Qgtb (a b : Q) : bool := negb (Qle_bool a b).

(** Lines 107-108:
    [if song not in recommendations or confidence > recommendations[song]:
         recommendations[song] = confidence] *)
Definition offer (conf : Q) (recommendations : dict) (song : string) : dict :=
  match dict_get recommendations song with
  | None => dict_set recommendations song conf
  | Some held =>
      if Qgtb conf held then dict_set recommendations song conf
      else recommendations
  end.

(** Lines 104-108: the loop over the consequent of one rule. *)
Definition offer_consequent (input_set : list string) (conf : Q)
    (recommendations : dict) (cons : list string) : dict :=
  fold_left
    (fun recs song => if mem song input_set then recs else offer conf recs song)
    cons recommendations.

(** Lines 91-108: the body of the loop over the rules. *)
Definition process_rule (input_set : list string) (recommendations : dict)
    (r : rule) : dict :=
  let antecedent := as_set (antecedent r) in
  let consequent := as_set (consequent r) in
  if issubset antecedent input_set
  then offer_consequent input_set (confidence r) recommendations consequent
  else recommendations.

(** The dict [recommendations] once the loop over [rules] has finished. *)
Definition recommendations_of (input_songs : list string) (rules : list rule)
    : dict :=
  fold_left (process_rule input_songs) rules [].

(** [sorted(items, key=lambda x: x[1], reverse=True)]: Python's sort is stable
    and stays stable under [reverse=True], so the result is the unique
    arrangement in descending key order in which items with equal keys keep
    their original order.  That arrangement is computed here by insertion:
    the head of the input goes behind the strictly greater keys and in front
    of everything else. *)
Fixpoint insert_desc (x : string * Q) (l : dict) : dict :=
  match l with
  | [] => [x]
  | y :: l' => if Qgtb (snd y) (snd x) then y :: insert_desc x l' else x :: l
  end.

Fixpoint sorted_desc (l : dict) : dict :=
  match l with
  | [] => []
  | x :: l' => insert_desc x (sorted_desc l')
  end.

(** The slice [l[:n]]; a negative [n] counts from the end. *)
Definition slice_to {A : Type} (n : Z) (l : list A) : list A :=
  if (n <? 0)%Z
  then firstn (Z.to_nat (Z.of_nat (List.length l) + n)) l
  else firstn (Z.to_nat n) l.

Definition get_recommendations (input_songs : list string) (rules : list rule)
    (max_recommendations : Z) : list string :=
  match rules with
  | [] => []
  | _ =>
      let recommendations := recommendations_of input_songs rules in
      let sorted_recommendations :=
        slice_to max_recommendations (sorted_desc recommendations) in
      map fst sorted_recommendations
  end.

Definition default_max_recommendations : Z := 10.

(** *** Specification vocabulary *)

(** A rule qualifies when its whole antecedent is liked. *)
Definition qualifies (input_songs : list string) (r : rule) : bool :=
  issubset (as_set (antecedent r)) input_songs.

(** The offers made to the dict, in the order the two nested loops make them:
    for every qualifying rule, each consequent item that is not liked,
    together with the rule's confidence. *)
Definition rule_offers (input_songs : list string) (r : rule)
    : list (string * Q) :=
  if qualifies input_songs r
  then map (fun s => (s, confidence r))
           (filter (fun s => negb (mem s input_songs)) (as_set (consequent r)))
  else [].

Definition offers (input_songs : list string) (rules : list rule)
    : list (string * Q) :=
  flat_map (rule_offers input_songs) rules.

(** The candidates in encounter order, with repetitions. *)
Definition encounter (input_songs : list string) (rules : list rule)
    : list string :=
  map fst (offers input_songs rules).

(** Position of the first occurrence ([length l] when absent). *)
Fixpoint index_of (s : string) (l : list string) : nat :=
  match l with
  | [] => O
  | x :: l' => if String.eqb s x then O else S (index_of s l')
  end.

(** [a] is ranked before [b]: strictly higher confidence in the dict, or the
    same confidence and an earlier insertion into the dict. *)
Definition ranked_before (recommendations : dict) (a b : string) : Prop :=
  exists ca cb,
    dict_get recommendations a = Some ca /\
    dict_get recommendations b = Some cb /\
    (cb < ca \/
     (ca == cb /\
      (index_of a (keys recommendations) < index_of b (keys recommendations))%nat)).

(** Feeding a list of offers to the dict, first to last. *)
Definition absorb (os : list (string * Q)) (d : dict) : dict :=
  fold_left (fun d o => offer (snd o) d (fst o)) os d.

(** What the dict holds once the offers [os] have been absorbed. *)
Record dict_invariant (os : list (string * Q)) (T : dict) : Prop := {
  inv_nodup : NoDup (keys T);
  inv_keys : forall k, In k (keys T) <-> In k (map fst os);
  inv_order :
    StronglySorted
      (fun a b => (index_of a (map fst os) < index_of b (map fst os))%nat)
      (keys T);
  inv_offered : forall k c, dict_get T k = Some c -> In (k, c) os;
  inv_highest : forall k c c', dict_get T k = Some c -> In (k, c') os -> c' <= c
}.

(** Pairs in the order Python's descending stable sort leaves them, for items
    that entered the sort in ascending [f]. *)
Definition pair_before (f : string -> nat) (a b : string * Q) : Prop :=
  snd b < snd a \/ (snd a == snd b /\ (f (fst a) < f (fst b))%nat).

(** Scenario data of the specification. *)
Definition mk_rule (a : list string) (c : list string) (q : Q) : rule :=
  (ItemSet a, ItemSet c, q).

Definition scenario_A : list rule :=
  [mk_rule ["X"] ["Y"] (9#10); mk_rule ["X"] ["Z"] (9#10);
   mk_rule ["Y"] ["W"] (1#2)].
Definition scenario_B : list rule := [mk_rule ["X"; "Y"] ["Z"] (8#10)].
Definition scenario_E : list rule :=
  [mk_rule ["X"] ["Y"] (6#10); mk_rule ["X"] ["Y"] (95#100)].

End Engine.

(* ================================================================== *)
(** ** The server: model store, loader, poller and request handler *)
(* ================================================================== *)

Module Server.
Import Engine.

(** *** Python values seen by the server

    [pickle.load] may return any object.  The server inspects it only through
    truthiness, [.get('rules', [])], [['metadata']] and [.get] on the
    metadata, so an unpickled object is taken to be a scalar or a dict with
    [str] keys.  The value under ['rules'] (when the key is present) is a
    scalar or a list of rule tuples; the value under any other key is a scalar
    or a [str]-keyed dict of scalars. *)
Inductive scalar : Type :=
| SNone
| SStr (s : string)
| SNum (q : Q).

Inductive rules_val : Type :=
| RScalar (c : scalar)
| RList (rs : list rule).

Inductive meta_val : Type :=
| MScalar (c : scalar)
| MDict (kvs : list (string * scalar)).

Inductive pyobj : Type :=
| PScalar (c : scalar)
| PDict (rules : option rules_val) (others : list (string * meta_val)).

Definition PNone : pyobj := PScalar SNone.

(** [x is None] *)
Definition is_None (x : pyobj) : bool :=
  match x with
  | PScalar SNone => true
  | _ => false
  end.

(** Truth value of an object in a condition ([if new_model:], [not rules]). *)
Definition scalar_truthy (c : scalar) : bool :=
  match c with
  | SNone => false
  | SStr s => negb (String.eqb s "")
  | SNum q => negb (Qeq_bool q 0)
  end.

Definition rules_truthy (v : rules_val) : bool :=
  match v with
  | RScalar c => scalar_truthy c
  | RList [] => false
  | RList (_ :: _) => true
  end.

Definition truthy (x : pyobj) : bool :=
  match x with
  | PScalar c => scalar_truthy c
  | PDict None [] => false
  | PDict _ _ => true
  end.

Fixpoint lookup {V : Type} (k : string) (kvs : list (string * V)) : option V :=
  match kvs with
  | [] => None
  | (k', v) :: kvs' => if String.eqb k k' then Some v else lookup k kvs'
  end.

(** *** JSON request bodies *)
Inductive json : Type :=
| JNull
| JBool (b : bool)
| JNum (q : Q)
| JStr (s : string)
| JArr (l : list json)
| JObj (kvs : list (string * json)).   (* the parsed object, keys distinct *)

(** The raw request body: bytes that [get_json] rejects, or a JSON text. *)
Inductive body : Type :=
| BadBody
| Body (data : json).

Definition json_truthy (j : json) : bool :=
  match j with
  | JNull => false
  | JBool b => b
  | JNum q => negb (Qeq_bool q 0)
  | JStr s => negb (String.eqb s "")
  | JArr [] => false
  | JArr (_ :: _) => true
  | JObj [] => false
  | JObj (_ :: _) => true
  end.

Definition is_JStr (s : string) (j : json) : bool :=
  match j with
  | JStr s' => String.eqb s s'
  | _ => false
  end.

(** Elements of [input_songs] that [set(...)] can hash. *)
Definition hashable (j : json) : bool :=
  match j with
  | JArr _ | JObj _ => false
  | _ => true
  end.

(** The members of [set(input_songs)] that can compare equal to a song name. *)
Definition liked_names (input_songs : list json) : list string :=
  flat_map (fun j => match j with JStr s => [s] | _ => [] end) input_songs.

(** *** The world: the model file, the store and the event log *)
Inductive file_content : Type :=
| Unreadable                 (* [open] or [pickle.load] raises *)
| Pickle (v : pyobj).        (* [pickle.load] returns [v] *)

Record file : Type := { mtime : Q; content : file_content }.

(** What is found at [MODEL_PATH]. *)
Definition disk : Type := option file.

(** [app.model_data], [app.model_last_modified] *)
Record store : Type := {
  model_data : pyobj;
  model_last_modified : option Q
}.

Definition initial_store : store :=
  {| model_data := PNone; model_last_modified := None |}.

Inductive event : Type :=
| EAcquire                   (* [app.model_lock] taken *)
| ERelease                   (* [app.model_lock] released *)
| EStat                      (* [os.path.exists], [os.path.getmtime] *)
| ELoad                      (* [open] + [pickle.load]: disk read and parse *)
| EReadStore                 (* a read of an [app.model_*] attribute *)
| EWriteStore                (* an assignment to an [app.model_*] attribute *)
| EGetJson                   (* [request.get_json] *)
| EPrint (msg : string)
| ESleep.                    (* [time.sleep(CHECK_MODEL_INTERVAL)] *)

Inductive exn : Type :=
| FileNotFoundError | UnpicklingError | KeyError | TypeError
| AttributeError | IndexError | BadRequest.

Inductive result (A : Type) : Type :=
| Ok (a : A)
| Raise (e : exn).
Arguments Ok {A} a.
Arguments Raise {A} e.

(** A computation reads the file at [MODEL_PATH], threads the store and emits
    events; the file does not change while one handler call or one iteration
    of the polling loop runs. *)
Definition M (A : Type) : Type :=
  disk -> store -> result A * store * list event.

Definition ret {A : Type} (a : A) : M A :=
  fun _ st => (Ok a, st, []).

Definition bind {A B : Type} (m : M A) (k : A -> M B) : M B :=
  fun d st =>
    match m d st with
    | (Ok a, st1, t1) =>
        let '(rb, st2, t2) := k a d st1 in (rb, st2, (t1 ++ t2)%list)
    | (Raise e, st1, t1) => (Raise e, st1, t1)
    end.

Definition raise {A : Type} (e : exn) : M A :=
  fun _ st => (Raise e, st, []).

(** [try: m except Exception as e: h e] *)
Definition try_except {A : Type} (m : M A) (h : exn -> M A) : M A :=
  fun d st =>
    match m d st with
    | (Ok a, st1, t1) => (Ok a, st1, t1)
    | (Raise e, st1, t1) =>
        let '(ra, st2, t2) := h e d st1 in (ra, st2, (t1 ++ t2)%list)
    end.

Definition emit (e : event) : M unit :=
  fun _ st => (Ok tt, st, [e]).

Declare Scope py_scope.
Delimit Scope py_scope with py.
Notation "x <- m ;; k" := (bind m (fun x => k))
  (at level 61, m at next level, right associativity) : py_scope.
Notation "m ;; k" := (bind m (fun _ => k))
  (at level 61, right associativity) : py_scope.
Open Scope py_scope.

(** [with app.model_lock: m] -- the lock is released on every way out. *)
Definition with_lock {A : Type} (m : M A) : M A :=
  fun d st =>
    let '(ra, st1, t1) := m d st in
    (ra, st1, ([EAcquire] ++ t1 ++ [ERelease])%list).

Definition print (msg : string) : M unit := emit (EPrint msg).

Definition path_exists : M bool :=
  fun d st => (Ok (match d with Some _ => true | None => false end), st, [EStat]).

Definition getmtime : M Q :=
  fun d st =>
    match d with
    | Some f => (Ok (mtime f), st, [EStat])
    | None => (Raise FileNotFoundError, st, [EStat])
    end.

(** [with open(MODEL_PATH, 'rb') as f: pickle.load(f)] *)
Definition pickle_load : M pyobj :=
  fun d st =>
    match d with
    | Some {| content := Pickle v |} => (Ok v, st, [ELoad])
    | Some {| content := Unreadable |} => (Raise UnpicklingError, st, [ELoad])
    | None => (Raise FileNotFoundError, st, [ELoad])
    end.

Definition get_model_data : M pyobj :=
  fun _ st => (Ok (model_data st), st, [EReadStore]).

Definition get_model_last_modified : M (option Q) :=
  fun _ st => (Ok (model_last_modified st), st, [EReadStore]).

Definition set_model_data (v : pyobj) : M unit :=
  fun _ st =>
    (Ok tt, {| model_data := v; model_last_modified := model_last_modified st |},
     [EWriteStore]).

Definition set_model_last_modified (t : Q) : M unit :=
  fun _ st =>
    (Ok tt, {| model_data := model_data st; model_last_modified := Some t |},
     [EWriteStore]).

(** [obj['metadata']] *)
Definition subscript_metadata (obj : pyobj) : M meta_val :=
  match obj with
  | PDict _ others =>
      match lookup "metadata" others with
      | Some v => ret v
      | None => raise KeyError
      end
  | PScalar _ => raise TypeError
  end.

(** [m.get(key, 'unknown')] *)
Definition meta_get (m : meta_val) (key : string) : M scalar :=
  match m with
  | MDict kvs =>
      match lookup key kvs with
      | Some v => ret v
      | None => ret (SStr "unknown")
      end
  | MScalar _ => raise AttributeError
  end.

(** [obj.get('rules', [])] *)
Definition get_rules (obj : pyobj) : M rules_val :=
  match obj with
  | PDict (Some v) _ => ret v
  | PDict None _ => ret (RList [])
  | PScalar _ => raise AttributeError
  end.

(** Lines 26-41. *)
Definition load_model : M pyobj :=
  ex <- path_exists ;;
  if negb ex then
    print "Warning: Model file not found" ;;
    ret PNone
  else
    try_except
      (model_data <- pickle_load ;;
       print "Model loaded successfully" ;;
       ret model_data)
      (fun e =>
         print "Error loading model" ;;
         ret PNone).

(** [app.model_last_modified is None or current_mtime > app.model_last_modified] *)
Definition needs_reload (last : option Q) (current_mtime : Q) : bool :=
  match last with
  | None => true
  | Some t => Qgtb current_mtime t
  end.

(** Lines 49-68: one iteration of the [while True] loop of
    [check_and_reload_model]. *)
Definition check_and_reload_model_once : M unit :=
  try_except
    (ex <- path_exists ;;
     if ex then
       current_mtime <- getmtime ;;
       with_lock
         (last <- get_model_last_modified ;;
          if needs_reload last current_mtime then
            print "Model file changed, reloading..." ;;
            new_model <- load_model ;;
            if truthy new_model then
              set_model_data new_model ;;
              set_model_last_modified current_mtime ;;
              md <- get_model_data ;;
              meta <- subscript_metadata md ;;
              v <- meta_get meta "version" ;;
              print "Model reloaded! Version: ..." ;;
              md <- get_model_data ;;
              meta <- subscript_metadata md ;;
              v <- meta_get meta "model_date" ;;
              print "Model date: ..."
            else ret tt
          else ret tt)
     else ret tt)
    (fun e => print "Error in model checking thread") ;;
  emit ESleep.

(** Lines 229-237: the initial load of [initialize_app]. *)
Definition initialize_app : M unit :=
  print "Loading initial model..." ;;
  with_lock
    (new_model <- load_model ;;
     set_model_data new_model ;;
     md <- get_model_data ;;
     if truthy md then
       t <- getmtime ;;
       set_model_last_modified t ;;
       print "Initial model loaded successfully!"
     else
       print "Warning: Could not load initial model. Server will wait for model file.").

(** *** The request handler *)

Record ok_body : Type := {
  songs : list string;
  version : string;
  model_date : scalar;
  input_songs : list json;
  num_recommendations : nat
}.

Inductive response : Type :=
| Success (b : ok_body)                      (* [jsonify(response), 200] *)
| Failure (status : Z) (error : string)      (* [jsonify({'error': ...}), status] *)
| InternalServerError.                       (* an exception left the handler *)

Definition option_is_some {A : Type} (o : option A) : bool :=
  match o with Some _ => true | None => false end.

(** [request.get_json(force=True)] *)
Definition get_json (b : body) : M json :=
  fun _ st =>
    match b with
    | BadBody => (Raise BadRequest, st, [EGetJson])
    | Body data => (Ok data, st, [EGetJson])
    end.

(** ['songs' in data] *)
Definition contains_songs (data : json) : M bool :=
  match data with
  | JObj kvs => ret (option_is_some (lookup "songs" kvs))
  | JArr l => ret (existsb (is_JStr "songs") l)
  | JStr s => ret (option_is_some (String.index 0 "songs" s))
  | JNull | JBool _ | JNum _ => raise TypeError
  end.

(** [data['songs']] *)
Definition subscript_songs (data : json) : M json :=
  match data with
  | JObj kvs =>
      match lookup "songs" kvs with
      | Some v => ret v
      | None => raise KeyError
      end
  | _ => raise TypeError
  end.

(** The call [get_recommendations(input_songs, rules)] of line 169 on the
    values the handler holds: [rules] is whatever the model stores under
    ['rules'] and [input_songs] is a JSON array.  Line 82 returns early on a
    false [rules]; line 86 hashes every element of [input_songs]; the loop of
    line 90 needs [rules] to be iterable and each element to have three
    components. *)
Definition call_get_recommendations (input_songs : list json)
    (rules : rules_val) : M (list string) :=
  if negb (rules_truthy rules) then ret []
  else if negb (forallb hashable input_songs) then raise TypeError
  else
    match rules with
    | RList rs =>
        ret (get_recommendations (liked_names input_songs) rs
               default_max_recommendations)
    | RScalar (SStr _) => raise IndexError
    | RScalar _ => raise TypeError
    end.

Section Handler.

(** [os.environ] at start-up. *)
Variable environ : list (string * string).

Definition os_environ_get (key default : string) : string :=
  match lookup key environ with
  | Some v => v
  | None => default
  end.

Definition SERVER_VERSION : string := os_environ_get "SERVER_VERSION" "1.0".

(** Lines 166-186: the [try] block that computes the recommendations and
    builds the response. *)
Definition generate_response (input_songs : list json) : M response :=
  try_except
    (md <- get_model_data ;;
     rules <- get_rules md ;;
     recommendations <- call_get_recommendations input_songs rules ;;
     md <- get_model_data ;;
     meta <- subscript_metadata md ;;
     date <- meta_get meta "model_date" ;;
     ret (Success
            {| songs := recommendations;
               version := SERVER_VERSION;
               model_date := date;
               input_songs := input_songs;
               num_recommendations := List.length recommendations |}))
    (fun e => ret (Failure 500 "Recommendation failed")).

(** Lines 120-186. *)
Definition recommend (b : body) : M response :=
  with_lock
    (md <- get_model_data ;;
     if is_None md then ret (Failure 503 "Model not loaded")
     else
       parsed <- try_except
                   (data <- get_json b ;; ret (inr data))
                   (fun e => ret (inl (Failure 400 "Invalid JSON"))) ;;
       match parsed with
       | inl resp => ret resp
       | inr data =>
           missing <- (if negb (json_truthy data) then ret true
                       else c <- contains_songs data ;; ret (negb c)) ;;
           if (missing : bool) then ret (Failure 400 "Missing required field")
           else
             input_songs <- subscript_songs data ;;
             match input_songs with
             | JArr l => generate_response l
             | _ => ret (Failure 400 "Invalid input")
             end
       end).

(** What the client receives: an exception that leaves [recommend] becomes
    the framework's 500 response. *)
Definition serve (b : body) (d : disk) (st : store)
    : response * store * list event :=
  match recommend b d st with
  | (Ok resp, st', t) => (resp, st', t)
  | (Raise _, st', t) => (InternalServerError, st', t)
  end.

End Handler.

(** *** Observations on a run *)

Definition value_of {A : Type} (x : result A * store * list event) : result A :=
  fst (fst x).
Definition store_of {A : Type} (x : A * store * list event) : store :=
  snd (fst x).
Definition trace_of {A : Type} (x : A * store * list event) : list event :=
  snd x.

(** The store after the first iterations of the [while True] loop of
    [check_and_reload_model], given what is on disk at each iteration. *)
Fixpoint check_and_reload_model (ds : list disk) (st : store) : store :=
  match ds with
  | [] => st
  | d :: ds' =>
      check_and_reload_model ds' (store_of (check_and_reload_model_once d st))
  end.

(** What [load_model] hands back for a given disk state. *)
Definition loaded (d : disk) : result pyobj :=
  value_of (load_model d initial_store).

(** Each event of a trace together with whether [app.model_lock] is held by
    the running thread when the event happens. *)
Fixpoint under_lock (held : bool) (t : list event) : list (event * bool) :=
  match t with
  | [] => []
  | EAcquire :: t' => (EAcquire, held) :: under_lock true t'
  | ERelease :: t' => (ERelease, held) :: under_lock false t'
  | e :: t' => (e, held) :: under_lock held t'
  end.

Definition is_ELoad (e : event) : bool :=
  match e with ELoad => true | _ => false end.
Definition touches_store (e : event) : bool :=
  match e with
  | EAcquire | ERelease | EReadStore | EWriteStore => true
  | _ => false
  end.

(** No disk read and parse happens while the lock is held. *)
Definition load_outside_lock (t : list event) : bool :=
  forallb (fun p => negb (is_ELoad (fst p) && snd p)) (under_lock false t).

(** Every disk read and parse happens while the lock is held. *)
Definition load_inside_lock (t : list event) : bool :=
  forallb (fun p => negb (is_ELoad (fst p)) || snd p) (under_lock false t).

Fixpoint lock_held_after (held : bool) (t : list event) : bool :=
  match t with
  | [] => held
  | EAcquire :: t' => lock_held_after true t'
  | ERelease :: t' => lock_held_after false t'
  | _ :: t' => lock_held_after held t'
  end.

(** *** Threads sharing [app.model_lock]

    A thread is the list of events it still has to perform; [threading.Lock]
    lets [EAcquire] proceed only while nobody holds the lock. *)
Record threads : Type := {
  lock_owner : option nat;
  pending : list (list event)
}.

Fixpoint set_nth {A : Type} (i : nat) (x : A) (l : list A) : list A :=
  match l, i with
  | [], _ => []
  | _ :: l', O => x :: l'
  | y :: l', S i' => y :: set_nth i' x l'
  end.

Definition step (i : nat) (c : threads) : option threads :=
  match nth_error (pending c) i with
  | Some (EAcquire :: rest) =>
      match lock_owner c with
      | None => Some {| lock_owner := Some i; pending := set_nth i rest (pending c) |}
      | Some _ => None
      end
  | Some (ERelease :: rest) =>
      Some {| lock_owner := None; pending := set_nth i rest (pending c) |}
  | Some (_ :: rest) =>
      Some {| lock_owner := lock_owner c; pending := set_nth i rest (pending c) |}
  | _ => None
  end.

Fixpoint run_schedule (sched : list nat) (c : threads) : option threads :=
  match sched with
  | [] => Some c
  | i :: sched' =>
      match step i c with
      | Some c' => run_schedule sched' c'
      | None => None
      end
  end.

(** Thread [i] waits for the lock. *)
Definition blocked (i : nat) (c : threads) : bool :=
  match nth_error (pending c) i with
  | Some (EAcquire :: _) => option_is_some (lock_owner c)
  | _ => false
  end.

(** The next thing thread [i] does is the disk read and parse. *)
Definition about_to_load (i : nat) (c : threads) : bool :=
  match nth_error (pending c) i with
  | Some (ELoad :: _) => true
  | _ => false
  end.

(** *** Vocabulary of the specification *)

(** The structure the specification asks the loader to check: ['rules'] is a
    sequence and ['metadata'] is present with at least ['model_date']. *)
Definition spec_well_formed (v : pyobj) : bool :=
  match v with
  | PDict (Some (RList _)) others =>
      match lookup "metadata" others with
      | Some (MDict kvs) => option_is_some (lookup "model_date" kvs)
      | _ => false
      end
  | _ => false
  end.

(** A request the specification calls invalid: body not parseable, or the
    liked-items field absent or not a list. *)
Definition spec_invalid_request (b : body) : bool :=
  match b with
  | BadBody => true
  | Body (JObj kvs) =>
      match lookup "songs" kvs with
      | Some (JArr _) => false
      | _ => true
      end
  | Body _ => true
  end.

(** The invalid requests the handler answers with status 400: body not
    parseable, parsed value false ([null], [{}], ...), or a JSON object
    without ['songs'] or whose ['songs'] is not a list. *)
Definition rejected_request (b : body) : bool :=
  match b with
  | BadBody => true
  | Body (JObj kvs) =>
      match lookup "songs" kvs with
      | Some (JArr _) => false
      | _ => true
      end
  | Body data => negb (json_truthy data)
  end.

Definition is_400 (resp : response) : bool :=
  match resp with
  | Failure 400 _ => true
  | _ => false
  end.

(** ['model_date'] as line 175 reads it from the model. *)
Definition metadata_model_date (md : pyobj) : option scalar :=
  match md with
  | PDict _ others =>
      match lookup "metadata" others with
      | Some (MDict kvs) =>
          Some (match lookup "model_date" kvs with
                | Some v => v
                | None => SStr "unknown"
                end)
      | _ => None
      end
  | PScalar _ => None
  end.

(** What [pickle.load] yields for the file, [None] when there is nothing to
    unpickle. *)
Definition unpickled (d : disk) : pyobj :=
  match d with
  | Some {| content := Pickle v |} => v
  | _ => PNone
  end.

(** [load_model] signals a failed load by returning [None]. *)
Definition load_fails (d : disk) : Prop := loaded d = Ok PNone.

(** *** Sample data *)

(** A model as the generator writes it (metadata version ["2.0"]). *)
Definition good_model : pyobj :=
  PDict (Some (RList scenario_A))
        [("metadata", MDict [("model_date", SStr "2024-01-01T12:00:00");
                             ("version", SStr "2.0")])].

(** [{'freq_itemsets': None}]: a dict with neither ['rules'] nor ['metadata']. *)
Definition bad_model : pyobj := PDict None [("freq_itemsets", MScalar SNone)].

Definition good_file : file := {| mtime := 1; content := Pickle good_model |}.
Definition bad_file : file := {| mtime := 2; content := Pickle bad_model |}.
Definition garbage_file : file := {| mtime := 2; content := Unreadable |}.

Definition good_store : store :=
  {| model_data := good_model; model_last_modified := Some 1 |}.

Definition liked_X : body := Body (JObj [("songs", JArr [JStr "X"])]).
Definition liked_Q : body := Body (JObj [("songs", JArr [JStr "Q"])]).


(** *** The health endpoint *)

Record health_body : Type := {
  status : string;
  model_loaded : bool;
  health_version : string;
  timestamp : string
}.

Section Health.

Variable environ : list (string * string).

(** Lines 189-201; [now] is what [datetime.now().isoformat()] returns.  The
    result is the JSON body and the HTTP status. *)
Definition health (now : string) : M (health_body * Z) :=
  is_healthy <- with_lock
                  (md <- get_model_data ;;
                   ret (negb (is_None md))) ;;
  ret ({| status := if (is_healthy : bool) then "healthy" else "unhealthy";
          model_loaded := is_healthy;
          health_version := SERVER_VERSION environ;
          timestamp := now |},
       if is_healthy then 200%Z else 503%Z).

End Health.

(** HTTP status of a [recommend] response. *)
Definition status_code (resp : response) : Z :=
  match resp with
  | Success _ => 200
  | Failure s _ => s
  | InternalServerError => 500
  end.

(** *** More observations on a run *)

Definition is_EWriteStore (e : event) : bool :=
  match e with EWriteStore => true | _ => false end.

(** Events that neither take nor release the lock nor assign to the store. *)
Definition lock_neutral (e : event) : bool :=
  match e with
  | EAcquire | ERelease | EWriteStore => false
  | _ => true
  end.

(** A computation that leaves the store as it found it and whose events are
    all [lock_neutral]. *)
Definition quiet {A : Type} (m : M A) : Prop :=
  forall d st,
    store_of (m d st) = st /\
    forallb lock_neutral (trace_of (m d st)) = true.

(** A disk read and parse happens somewhere in the trace. *)
Definition loads (t : list event) : bool := existsb is_ELoad t.





End Server.

(* ================================================================== *)
(** ** The command-line client ([src/client/client.py]) *)
(* ================================================================== *)

Module Client.
Import Engine Server.

(** What [requests.post] runs into. *)
Inductive network : Type :=
| ConnectionError
| Timeout
| Delivered.

(** Lines 30-32 and 42: [json=payload] with [payload = {"songs": songs}];
    the server parses the body back to the same value. *)
Definition payload (songs : list string) : body :=
  Body (JObj [("songs", JArr (map JStr songs))]).

Section Against.

(** The server the client talks to: its environment, model file and store. *)
Variable environ : list (string * string).
Variable d : disk.
Variable st : store.

(** Lines 17-68, without the text written to standard output: the response
    JSON on status 200, [None] on any other status and on every exception. *)
Definition get_recommendations (songs : list string) (net : network)
    : option ok_body :=
  match net with
  | Delivered =>
      match fst (fst (serve environ (payload songs) d st)) with
      | Success ok => Some ok
      | _ => None
      end
  | ConnectionError | Timeout => None
  end.

(** Lines 99-119: [health_data.get('status') == 'healthy'], [False] on any
    exception. *)
Definition check_health (now : string) (net : network) : bool :=
  match net with
  | Delivered =>
      match value_of (health environ now d st) with
      | Ok (hb, _) => String.eqb (status hb) "healthy"
      | Raise _ => false
      end
  | ConnectionError | Timeout => false
  end.

(** Lines 169-181: the exit code of [main].  The response dict has five
    keys, so [if response_data:] holds exactly when a response came back. *)
Definition main (songs : list string) (net : network) : Z :=
  match get_recommendations songs net with
  | Some _ => 0
  | None => 1
  end.

End Against.

End Client.

(* ================================================================== *)
(** ** Properties of the recommendation engine *)
(* ================================================================== *)

Module EngineFacts.
Import Engine.

(** *** Membership, comparisons *)

Lemma mem_In (s : string) (l : list string) : mem s l = true <-> In s l.
Proof.
  unfold mem. rewrite existsb_exists. split.
  - intros [x [Hx He]]. apply String.eqb_eq in He. now subst.
  - intros H. exists s. split; [assumption | apply String.eqb_refl].
Qed.

Lemma mem_false (s : string) (l : list string) : mem s l = false <-> ~ In s l.
Proof.
  rewrite <- mem_In. destruct (mem s l); split; intros; congruence.
Qed.

Lemma issubset_spec (a l : list string) :
  issubset a l = true <-> (forall x, In x a -> In x l).
Proof.
  unfold issubset. rewrite forallb_forall.
  split; intros H x Hx; apply mem_In; auto.
Qed.

Lemma Qgtb_true (a b : Q) : Qgtb a b = true <-> b < a.
Proof.
  unfold Qgtb. rewrite negb_true_iff. split; intros H.
  - apply Qnot_le_lt. intros Hle. apply Qle_bool_iff in Hle. congruence.
  - destruct (Qle_bool a b) eqn:E; [|reflexivity].
    apply Qle_bool_iff in E. lra.
Qed.

Lemma Qgtb_false (a b : Q) : Qgtb a b = false <-> a <= b.
Proof.
  unfold Qgtb. rewrite negb_false_iff. apply Qle_bool_iff.
Qed.

(** *** The dict *)

Lemma dict_get_None (d : dict) (k : string) :
  dict_get d k = None <-> ~ In k (keys d).
Proof.
  induction d as [|[k' v] d IH]; simpl.
  - tauto.
  - destruct (String.eqb_spec k k') as [->|Hne].
    + split; [discriminate | intros H; exfalso; apply H; now left].
    + rewrite IH. split; intros H; [intros [E|I]; [congruence|tauto] | tauto].
Qed.

Lemma dict_get_Some_In (d : dict) (k : string) (v : Q) :
  dict_get d k = Some v -> In (k, v) d.
Proof.
  induction d as [|[k' v'] d IH]; simpl; [discriminate|].
  destruct (String.eqb_spec k k') as [->|Hne].
  - intros [= ->]. now left.
  - intros H. right. auto.
Qed.

Lemma In_dict_get (d : dict) (k : string) (v : Q) :
  NoDup (keys d) -> In (k, v) d -> dict_get d k = Some v.
Proof.
  induction d as [|[k' v'] d IH]; simpl; [tauto|].
  intros Hnd [E|I]; inversion Hnd as [|? ? Hnotin Hnd']; subst.
  - injection E as -> ->. now rewrite String.eqb_refl.
  - destruct (String.eqb_spec k k') as [->|Hne].
    + exfalso. apply Hnotin. change (In (fst (k', v)) (map fst d)).
      now apply in_map.
    + auto.
Qed.

Lemma dict_set_present (d : dict) (k : string) (v : Q) :
  In k (keys d) -> keys (dict_set d k v) = keys d.
Proof.
  induction d as [|[k' v'] d IH]; simpl; [tauto|].
  intros H. destruct (String.eqb_spec k k') as [->|Hne]; simpl.
  - reflexivity.
  - f_equal. apply IH. destruct H; [congruence|assumption].
Qed.

Lemma dict_set_absent (d : dict) (k : string) (v : Q) :
  ~ In k (keys d) -> dict_set d k v = (d ++ [(k, v)])%list.
Proof.
  induction d as [|[k' v'] d IH]; simpl; [reflexivity|].
  intros H. destruct (String.eqb_spec k k') as [->|Hne].
  - exfalso. apply H. now left.
  - f_equal. apply IH. tauto.
Qed.

Lemma dict_get_set_same (d : dict) (k : string) (v : Q) :
  dict_get (dict_set d k v) k = Some v.
Proof.
  induction d as [|[k' v'] d IH]; simpl.
  - now rewrite String.eqb_refl.
  - destruct (String.eqb_spec k k') as [->|Hne]; simpl.
    + now rewrite String.eqb_refl.
    + destruct (String.eqb_spec k k'); [contradiction|assumption].
Qed.

Lemma dict_get_set_other (d : dict) (k k0 : string) (v : Q) :
  k0 <> k -> dict_get (dict_set d k v) k0 = dict_get d k0.
Proof.
  intros Hne. induction d as [|[k' v'] d IH]; simpl.
  - destruct (String.eqb_spec k0 k); [contradiction|reflexivity].
  - destruct (String.eqb_spec k k') as [->|Hne']; simpl.
    + destruct (String.eqb_spec k0 k'); [contradiction|reflexivity].
    + destruct (String.eqb_spec k0 k'); [reflexivity|assumption].
Qed.

(** An offer either leaves the keys alone or appends the new song. *)
Lemma keys_offer (c : Q) (d : dict) (s : string) :
  (In s (keys d) /\ keys (offer c d s) = keys d) \/
  (~ In s (keys d) /\ keys (offer c d s) = (keys d ++ [s])%list).
Proof.
  unfold offer. destruct (dict_get d s) as [held|] eqn:E.
  - left. assert (In s (keys d)) as Hin.
    { destruct (in_dec string_dec s (keys d)) as [H|H]; [assumption|].
      apply dict_get_None in H. congruence. }
    split; [assumption|].
    destruct (Qgtb c held); [now apply dict_set_present | reflexivity].
  - right. apply dict_get_None in E. split; [assumption|].
    rewrite dict_set_absent by assumption. unfold keys. rewrite map_app. reflexivity.
Qed.

(** After an offer of [c] for [s], the dict holds for [s] the larger of [c]
    and what it held, and every other entry is unchanged. *)
Lemma dict_get_offer_same (c : Q) (d : dict) (s : string) :
  match dict_get d s with
  | None => dict_get (offer c d s) s = Some c
  | Some held =>
      (held < c /\ dict_get (offer c d s) s = Some c) \/
      (c <= held /\ dict_get (offer c d s) s = Some held)
  end.
Proof.
  unfold offer. destruct (dict_get d s) as [held|] eqn:E.
  - destruct (Qgtb c held) eqn:G.
    + left. apply Qgtb_true in G. split; [assumption | apply dict_get_set_same].
    + right. apply Qgtb_false in G. split; assumption.
  - apply dict_get_set_same.
Qed.

Lemma dict_get_offer_other (c : Q) (d : dict) (s k : string) :
  k <> s -> dict_get (offer c d s) k = dict_get d k.
Proof.
  intros Hne. unfold offer.
  destruct (dict_get d s) as [held|]; [destruct (Qgtb c held)|];
    try reflexivity; now apply dict_get_set_other.
Qed.

(** *** The loops as a sequence of offers *)

Lemma absorb_app (os1 os2 : list (string * Q)) (d : dict) :
  absorb (os1 ++ os2) d = absorb os2 (absorb os1 d).
Proof. unfold absorb. apply fold_left_app. Qed.

Lemma offer_consequent_absorb (input : list string) (c : Q) (cons : list string) :
  forall d,
    offer_consequent input c d cons =
    absorb (map (fun s => (s, c)) (filter (fun s => negb (mem s input)) cons)) d.
Proof.
  unfold offer_consequent.
  induction cons as [|s cons IH]; intros d; simpl; [reflexivity|].
  destruct (mem s input); simpl; apply IH.
Qed.

Lemma process_rule_absorb (input : list string) (d : dict) (x : rule) :
  process_rule input d x = absorb (rule_offers input x) d.
Proof.
  unfold process_rule, rule_offers, qualifies.
  destruct (issubset (as_set (antecedent x)) input).
  - apply offer_consequent_absorb.
  - reflexivity.
Qed.

Lemma fold_process_rule_absorb (input : list string) (rules : list rule) :
  forall d,
    fold_left (process_rule input) rules d = absorb (offers input rules) d.
Proof.
  unfold offers.
  induction rules as [|x rules IH]; intros d; simpl; [reflexivity|].
  rewrite absorb_app, <- process_rule_absorb. apply IH.
Qed.

Lemma recommendations_of_absorb (input : list string) (rules : list rule) :
  recommendations_of input rules = absorb (offers input rules) [].
Proof. apply fold_process_rule_absorb. Qed.

(** Which offers exist: a qualifying rule, a consequent item, not liked. *)
Lemma In_offers (input : list string) (rules : list rule) (s : string) (c : Q) :
  In (s, c) (offers input rules) <->
  exists x, In x rules /\ qualifies input x = true /\
            In s (as_set (consequent x)) /\ ~ In s input /\ confidence x = c.
Proof.
  unfold offers. rewrite in_flat_map. split.
  - intros [x [Hx Ho]]. exists x. unfold rule_offers in Ho.
    destruct (qualifies input x) eqn:Eq; [|contradiction].
    apply in_map_iff in Ho. destruct Ho as [s' [E Hf]].
    injection E as -> ->. apply filter_In in Hf. destruct Hf as [Hin Hm].
    apply negb_true_iff, mem_false in Hm. auto.
  - intros [x [Hx [Hq [Hin [Hnl Hc]]]]]. exists x. split; [assumption|].
    unfold rule_offers. rewrite Hq. apply in_map_iff. exists s.
    split; [now rewrite Hc|]. apply filter_In. split; [assumption|].
    apply negb_true_iff, mem_false. assumption.
Qed.

Lemma In_encounter (input : list string) (rules : list rule) (s : string) :
  In s (encounter input rules) <->
  exists x, In x rules /\ qualifies input x = true /\
            In s (as_set (consequent x)) /\ ~ In s input.
Proof.
  unfold encounter. rewrite in_map_iff. split.
  - intros [[s' c] [E H]]. simpl in E. subst s'.
    apply In_offers in H. destruct H as [x H]. exists x. tauto.
  - intros [x [Hx [Hq [Hin Hnl]]]]. exists (s, confidence x). split; [reflexivity|].
    apply In_offers. exists x. tauto.
Qed.

(** *** First positions *)

Lemma index_of_app_In (s : string) (l1 l2 : list string) :
  In s l1 -> index_of s (l1 ++ l2) = index_of s l1.
Proof.
  induction l1 as [|x l1 IH]; simpl; [tauto|].
  intros H. destruct (String.eqb_spec s x); [reflexivity|].
  f_equal. apply IH. destruct H; [congruence|assumption].
Qed.

Lemma index_of_app_notin (s : string) (l1 l2 : list string) :
  ~ In s l1 -> index_of s (l1 ++ l2) = (List.length l1 + index_of s l2)%nat.
Proof.
  induction l1 as [|x l1 IH]; simpl; [reflexivity|].
  intros H. destruct (String.eqb_spec s x) as [->|Hne].
  - exfalso. apply H. now left.
  - f_equal. apply IH. tauto.
Qed.

Lemma index_of_lt (s : string) (l : list string) :
  In s l -> (index_of s l < List.length l)%nat.
Proof.
  induction l as [|x l IH]; simpl; [tauto|].
  intros H. destruct (String.eqb_spec s x); [lia|].
  apply -> Nat.succ_lt_mono. apply IH. destruct H; [congruence|assumption].
Qed.

(** *** Sortedness toolkit *)

Lemma StronglySorted_weaken {A : Type} (R R' : A -> A -> Prop) (l : list A) :
  (forall a b, In a l -> In b l -> R a b -> R' a b) ->
  StronglySorted R l -> StronglySorted R' l.
Proof.
  induction l as [|x l IH]; intros Himp Hs; [constructor|].
  inversion Hs as [|? ? Hs' Hall]; subst. constructor.
  - apply IH; [|assumption]. intros a b Ha Hb. apply Himp; now right.
  - rewrite Forall_forall in *. intros y Hy.
    apply Himp; [now left | now right | auto].
Qed.

Lemma StronglySorted_map {A B : Type} (g : A -> B) (R : B -> B -> Prop)
    (l : list A) :
  StronglySorted (fun a b => R (g a) (g b)) l <-> StronglySorted R (map g l).
Proof.
  induction l as [|x l IH]; simpl; split; intros H; try constructor;
    inversion H as [|? ? Hs Hall]; subst.
  - now apply IH.
  - rewrite Forall_forall in *. intros y Hy. apply in_map_iff in Hy.
    destruct Hy as [a [<- Ha]]. auto.
  - now apply IH.
  - rewrite Forall_forall in *. intros y Hy. apply Hall. now apply in_map.
Qed.

Lemma StronglySorted_snoc {A : Type} (R : A -> A -> Prop) (l : list A) (x : A) :
  StronglySorted R l -> Forall (fun y => R y x) l ->
  StronglySorted R (l ++ [x]).
Proof.
  induction l as [|y l IH]; simpl; intros Hs Hall.
  - repeat constructor.
  - inversion Hs as [|? ? Hs' Hall']; subst.
    inversion Hall as [|? ? Hyx Hall'']; subst.
    constructor; [auto|]. apply Forall_app. split; [assumption|].
    constructor; [assumption|constructor].
Qed.

Lemma firstn_incl {A : Type} (n : nat) (l : list A) (x : A) :
  In x (firstn n l) -> In x l.
Proof.
  intros H. rewrite <- (firstn_skipn n l). apply in_or_app. now left.
Qed.

Lemma StronglySorted_firstn {A : Type} (R : A -> A -> Prop) (n : nat) :
  forall l, StronglySorted R l -> StronglySorted R (firstn n l).
Proof.
  induction n as [|n IH]; intros l Hs; simpl; [constructor|].
  destruct l as [|x l]; [constructor|].
  inversion Hs as [|? ? Hs' Hall]; subst. constructor; [auto|].
  rewrite Forall_forall in *. intros y Hy. apply Hall.
  eapply firstn_incl; eassumption.
Qed.

Lemma StronglySorted_slice_to {A : Type} (R : A -> A -> Prop) (n : Z)
    (l : list A) :
  StronglySorted R l -> StronglySorted R (slice_to n l).
Proof.
  intros H. unfold slice_to. destruct (n <? 0)%Z; now apply StronglySorted_firstn.
Qed.

Lemma In_slice_to {A : Type} (n : Z) (l : list A) (x : A) :
  In x (slice_to n l) -> In x l.
Proof.
  unfold slice_to. destruct (n <? 0)%Z; intros H; eapply firstn_incl; eassumption.
Qed.

(** A duplicate-free list is ascending in the first position of its members. *)
Lemma NoDup_sorted_by_index (l : list string) :
  NoDup l ->
  StronglySorted (fun a b => (index_of a l < index_of b l)%nat) l.
Proof.
  induction l as [|x l IH]; intros Hnd; [constructor|].
  inversion Hnd as [|? ? Hnotin Hnd']; subst. constructor.
  - apply StronglySorted_weaken with (2 := IH Hnd').
    intros a b Ha Hb Hlt. simpl.
    destruct (String.eqb_spec a x) as [->|_]; [contradiction|].
    destruct (String.eqb_spec b x) as [->|_]; [contradiction|]. lia.
  - rewrite Forall_forall. intros y Hy. simpl. rewrite String.eqb_refl.
    destruct (String.eqb_spec y x) as [->|_]; [contradiction|]. lia.
Qed.


(** *** The dict after the loops *)


Lemma NoDup_snoc {A : Type} (l : list A) (x : A) :
  NoDup l -> ~ In x l -> NoDup (l ++ [x]).
Proof.
  intros Hnd Hx. apply NoDup_rev in Hnd.
  rewrite <- (rev_involutive (l ++ [x])). apply NoDup_rev.
  rewrite rev_app_distr. simpl. constructor; [|assumption].
  now rewrite <- in_rev.
Qed.

Lemma absorb_invariant (os : list (string * Q)) :
  dict_invariant os (absorb os []).
Proof.
  induction os as [|[s c] os IH] using rev_ind.
  - split; simpl; try (intros; discriminate); try constructor; tauto.
  - rewrite absorb_app. simpl. set (T := absorb os []) in *.
    destruct IH as [Hnd Hkeys Hord Hoff Hmax].
    assert (Hfst : map fst (os ++ [(s, c)]) = (map fst os ++ [s])%list)
      by (rewrite map_app; reflexivity).
    assert (Hget_other : forall k, k <> s -> dict_get (offer c T s) k = dict_get T k)
      by (intros; now apply dict_get_offer_other).
    destruct (keys_offer c T s) as [[Hin Hk]|[Hnin Hk]].
    + (* the song is already a key: its position is kept *)
      split; rewrite ?Hk, ?Hfst.
      * assumption.
      * intros k. rewrite in_app_iff, Hkeys. simpl. split; [tauto|].
        intros [H|[<-|[]]]; [assumption | now apply Hkeys].
      * apply StronglySorted_weaken with (2 := Hord).
        intros a b Ha Hb. apply Hkeys in Ha, Hb.
        now rewrite !index_of_app_In by assumption.
      * intros k v Hg. apply in_or_app.
        destruct (string_dec k s) as [->|Hne].
        -- pose proof (dict_get_offer_same c T s) as Hs.
           destruct (dict_get T s) as [held|] eqn:E.
           ++ destruct Hs as [[_ Hs]|[_ Hs]]; rewrite Hs in Hg; injection Hg as <-.
              ** right. now left.
              ** left. now apply Hoff.
           ++ apply dict_get_None in E. contradiction.
        -- left. apply Hoff. now rewrite <- Hget_other.
      * intros k v v' Hg Hv'. apply in_app_or in Hv'.
        destruct (string_dec k s) as [->|Hne].
        -- pose proof (dict_get_offer_same c T s) as Hs.
           destruct (dict_get T s) as [held|] eqn:E.
           ++ destruct Hs as [[Hlt Hs]|[Hle Hs]]; rewrite Hs in Hg; injection Hg as <-;
                (destruct Hv' as [Hv'|[Hv'|[]]];
                 [pose proof (Hmax s held v' E Hv'); lra
                 | injection Hv' as <-; lra]).
           ++ apply dict_get_None in E. contradiction.
        -- rewrite Hget_other in Hg by assumption.
           destruct Hv' as [Hv'|[Hv'|[]]]; [eauto | congruence].
    + (* a new song: appended behind every key *)
      assert (Hnew : ~ In s (map fst os)) by (now rewrite <- Hkeys).
      assert (Hgs : dict_get (offer c T s) s = Some c).
      { pose proof (dict_get_offer_same c T s) as Hs.
        destruct (dict_get T s) eqn:E; [|assumption].
        exfalso. apply Hnin.
        destruct (in_dec string_dec s (keys T)) as [H|H]; [assumption|].
        apply dict_get_None in H. congruence. }
      split; rewrite ?Hk, ?Hfst.
      * now apply NoDup_snoc.
      * intros k. rewrite !in_app_iff, Hkeys. tauto.
      * apply StronglySorted_snoc.
        -- apply StronglySorted_weaken with (2 := Hord).
           intros a b Ha Hb. apply Hkeys in Ha, Hb.
           now rewrite !index_of_app_In by assumption.
        -- rewrite Forall_forall. intros y Hy. apply Hkeys in Hy.
           rewrite index_of_app_In by assumption.
           rewrite index_of_app_notin by assumption.
           pose proof (index_of_lt y (map fst os) Hy). lia.
      * intros k v Hg. apply in_or_app.
        destruct (string_dec k s) as [->|Hne].
        -- rewrite Hgs in Hg. injection Hg as <-. right. now left.
        -- left. apply Hoff. now rewrite <- Hget_other.
      * intros k v v' Hg Hv'. apply in_app_or in Hv'.
        destruct (string_dec k s) as [->|Hne].
        -- rewrite Hgs in Hg. injection Hg as <-.
           destruct Hv' as [Hv'|[Hv'|[]]].
           ++ exfalso. apply Hnew. change s with (fst (s, v')). now apply in_map.
           ++ injection Hv' as <-. lra.
        -- rewrite Hget_other in Hg by assumption.
           destruct Hv' as [Hv'|[Hv'|[]]]; [eauto | congruence].
Qed.

Lemma recommendations_invariant (input : list string) (rules : list rule) :
  dict_invariant (offers input rules) (recommendations_of input rules).
Proof. rewrite recommendations_of_absorb. apply absorb_invariant. Qed.


(** *** The descending stable sort *)

Lemma insert_desc_perm (x : string * Q) (l : dict) :
  Permutation (insert_desc x l) (x :: l).
Proof.
  induction l as [|y l IH]; simpl; [reflexivity|].
  destruct (Qgtb (snd y) (snd x)); [|reflexivity].
  rewrite IH. apply perm_swap.
Qed.

Lemma sorted_desc_perm (l : dict) : Permutation (sorted_desc l) l.
Proof.
  induction l as [|x l IH]; simpl; [constructor|].
  rewrite insert_desc_perm. now constructor.
Qed.

Lemma sorted_desc_In (l : dict) (p : string * Q) :
  In p (sorted_desc l) <-> In p l.
Proof.
  split; apply Permutation_in;
    [apply sorted_desc_perm | symmetry; apply sorted_desc_perm].
Qed.

Lemma sorted_desc_keys_NoDup (l : dict) :
  NoDup (keys l) -> NoDup (keys (sorted_desc l)).
Proof.
  apply Permutation_NoDup. unfold keys. apply Permutation_map.
  symmetry. apply sorted_desc_perm.
Qed.

Section Stable.

Variable f : string -> nat.

Lemma insert_desc_sorted (x : string * Q) (l : dict) :
  StronglySorted (pair_before f) l ->
  Forall (fun y => (f (fst x) < f (fst y))%nat) l ->
  StronglySorted (pair_before f) (insert_desc x l).
Proof.
  induction l as [|y l IH]; simpl; intros Hs Hall.
  - repeat constructor.
  - inversion Hs as [|? ? Hs' Hy]; subst.
    inversion Hall as [|? ? Hxy Hall']; subst.
    destruct (Qgtb (snd y) (snd x)) eqn:G.
    + apply Qgtb_true in G. constructor; [auto|].
      rewrite Forall_forall in *. intros z Hz.
      apply (Permutation_in _ (insert_desc_perm x l)) in Hz.
      destruct Hz as [<-|Hz]; [now left | auto].
    + apply Qgtb_false in G. constructor; [assumption|].
      rewrite Forall_forall in *. intros z Hz.
      assert (Hle : snd z <= snd x).
      { destruct Hz as [<-|Hz]; [assumption|].
        destruct (Hy z Hz) as [H|[H _]]; lra. }
      assert (Hf : (f (fst x) < f (fst z))%nat).
      { destruct Hz as [<-|Hz]; [assumption | auto]. }
      destruct (Qlt_le_dec (snd z) (snd x)) as [Hlt|Hge];
        [now left | right; split; [lra | assumption]].
Qed.

Lemma sorted_desc_sorted (l : dict) :
  StronglySorted (fun a b => (f (fst a) < f (fst b))%nat) l ->
  StronglySorted (pair_before f) (sorted_desc l).
Proof.
  induction l as [|x l IH]; simpl; intros Hs; [constructor|].
  inversion Hs as [|? ? Hs' Hall]; subst.
  apply insert_desc_sorted; [auto|].
  eapply Permutation_Forall; [symmetry; apply sorted_desc_perm | assumption].
Qed.

End Stable.

(** *** The result *)

Lemma get_recommendations_unfold (input : list string) (rules : list rule)
    (n : Z) :
  get_recommendations input rules n =
  map fst (slice_to n (sorted_desc (recommendations_of input rules))).
Proof.
  destruct rules; [|reflexivity].
  unfold get_recommendations, slice_to. simpl.
  destruct (n <? 0)%Z; now rewrite firstn_nil.
Qed.

Lemma In_result_pair (input : list string) (rules : list rule) (n : Z)
    (s : string) :
  In s (get_recommendations input rules n) ->
  exists c, In (s, c) (slice_to n (sorted_desc (recommendations_of input rules)))
            /\ dict_get (recommendations_of input rules) s = Some c.
Proof.
  rewrite get_recommendations_unfold. intros H.
  apply in_map_iff in H. destruct H as [[s' c] [E H]]. simpl in E. subst s'.
  exists c. split; [assumption|].
  apply In_dict_get.
  - apply (inv_nodup _ _ (recommendations_invariant input rules)).
  - apply sorted_desc_In. eapply In_slice_to. eassumption.
Qed.

Lemma In_result_key (input : list string) (rules : list rule) (n : Z)
    (s : string) :
  In s (get_recommendations input rules n) ->
  In s (keys (recommendations_of input rules)).
Proof.
  intros H. apply In_result_pair in H. destruct H as [c [_ H]].
  apply dict_get_Some_In in H. change s with (fst (s, c)). now apply in_map.
Qed.

Lemma slice_to_all {A : Type} (n : Z) (l : list A) :
  (Z.of_nat (List.length l) <= n)%Z -> slice_to n l = l.
Proof.
  intros H. unfold slice_to.
  destruct (n <? 0)%Z eqn:E; [apply Z.ltb_lt in E; lia|].
  apply firstn_all2. lia.
Qed.

Lemma NoDup_firstn {A : Type} (n : nat) (l : list A) :
  NoDup l -> NoDup (firstn n l).
Proof.
  intros H. rewrite <- (firstn_skipn n l) in H.
  eapply NoDup_app_remove_r. eassumption.
Qed.

Lemma result_NoDup (input : list string) (rules : list rule) (n : Z) :
  NoDup (get_recommendations input rules n).
Proof.
  rewrite get_recommendations_unfold.
  assert (H : NoDup (map fst (sorted_desc (recommendations_of input rules)))).
  { apply sorted_desc_keys_NoDup.
    apply (inv_nodup _ _ (recommendations_invariant input rules)). }
  unfold slice_to. destruct (n <? 0)%Z; rewrite <- firstn_map; now apply NoDup_firstn.
Qed.

(** ** C1: the result is in descending order of confidence, and songs with
    equal confidence keep the order in which they were first inserted into
    the dict [recommendations], which is the order in which the rule loops
    first met them. *)
Theorem C1_sorted_descending_stable (input_songs : list string)
    (rules : list rule) (max_recommendations : Z) :
  StronglySorted (ranked_before (recommendations_of input_songs rules))
    (get_recommendations input_songs rules max_recommendations)
  /\ StronglySorted
       (fun a b => (index_of a (encounter input_songs rules)
                    < index_of b (encounter input_songs rules))%nat)
       (keys (recommendations_of input_songs rules)).
Proof.
  set (T := recommendations_of input_songs rules).
  pose proof (recommendations_invariant input_songs rules) as Inv.
  fold T in Inv. destruct Inv as [Hnd Hkeys Hord Hoff Hmax].
  split; [|exact Hord].
  rewrite get_recommendations_unfold. fold T.
  apply (proj1 (StronglySorted_map fst (ranked_before T) _)).
  apply StronglySorted_weaken
    with (R := pair_before (fun s => index_of s (keys T))).
  - intros a b Ha Hb Hab.
    apply In_slice_to in Ha. apply (proj1 (sorted_desc_In _ _)) in Ha.
    apply In_slice_to in Hb. apply (proj1 (sorted_desc_In _ _)) in Hb.
    destruct a as [a ca], b as [b cb]. exists ca, cb.
    split; [now apply In_dict_get|]. split; [now apply In_dict_get|].
    exact Hab.
  - apply StronglySorted_slice_to, sorted_desc_sorted.
    apply (proj2 (StronglySorted_map fst
             (fun a b => (index_of a (keys T) < index_of b (keys T))%nat) T)).
    now apply NoDup_sorted_by_index.
Qed.

(** ** C2: a song offered by several qualifying rules occurs once in the
    result, and the confidence it is ranked by is the confidence of one of
    those rules and is at least the confidence of every one of them. *)
Theorem C2_once_with_highest_confidence (input_songs : list string)
    (rules : list rule) (max_recommendations : Z) (song : string) :
  In song (get_recommendations input_songs rules max_recommendations) ->
  count_occ string_dec
    (get_recommendations input_songs rules max_recommendations) song = 1%nat
  /\ exists best,
       dict_get (recommendations_of input_songs rules) song = Some best
       /\ In (song, best)
            (slice_to max_recommendations
               (sorted_desc (recommendations_of input_songs rules)))
       /\ (exists x, In x rules /\ qualifies input_songs x = true /\
                     In song (as_set (consequent x)) /\ confidence x = best)
       /\ (forall x, In x rules -> qualifies input_songs x = true ->
                     In song (as_set (consequent x)) -> confidence x <= best).
Proof.
  intros Hin. split.
  - apply NoDup_count_occ'; [apply result_NoDup | assumption].
  - pose proof (recommendations_invariant input_songs rules) as Inv.
    destruct (In_result_pair _ _ _ _ Hin) as [best [Hslice Hget]].
    exists best. repeat split; try assumption.
    + apply (inv_offered _ _ Inv), In_offers in Hget.
      destruct Hget as [x H]. exists x. tauto.
    + intros x Hx Hq Hc.
      apply (inv_highest _ _ Inv song best (confidence x) Hget).
      apply In_offers. exists x. repeat split; try assumption.
      apply (inv_offered _ _ Inv), In_offers in Hget.
      destruct Hget as [y H]. tauto.
Qed.

(** ** C3: no liked song is ever recommended. *)
Theorem C3_no_self_recommendation (input_songs : list string)
    (rules : list rule) (max_recommendations : Z) (song : string) :
  In song (get_recommendations input_songs rules max_recommendations) ->
  ~ In song input_songs.
Proof.
  intros Hin. apply In_result_key in Hin.
  apply (inv_keys _ _ (recommendations_invariant input_songs rules)) in Hin.
  apply In_encounter in Hin. destruct Hin as [x H]. tauto.
Qed.

(** ** C4: a rule whose antecedent is not wholly liked leaves the dict
    untouched; the candidates are exactly the unliked consequent items of the
    rules whose antecedent is wholly liked; within the limit they are exactly
    the result; and Scenario B yields the empty list. *)
Theorem C4_antecedent_must_be_covered (input_songs : list string)
    (rules : list rule) (max_recommendations : Z) :
  (forall recommendations x,
     (exists a, In a (as_set (antecedent x)) /\ ~ In a input_songs) ->
     process_rule input_songs recommendations x = recommendations)
  /\ (forall song,
        In song (keys (recommendations_of input_songs rules)) <->
        exists x, In x rules /\
                  (forall a, In a (as_set (antecedent x)) -> In a input_songs) /\
                  In song (as_set (consequent x)) /\ ~ In song input_songs)
  /\ (forall song,
        In song (get_recommendations input_songs rules max_recommendations) ->
        exists x, In x rules /\
                  (forall a, In a (as_set (antecedent x)) -> In a input_songs) /\
                  In song (as_set (consequent x)) /\ ~ In song input_songs)
  /\ ((Z.of_nat (List.length (recommendations_of input_songs rules))
         <= max_recommendations)%Z ->
      forall song,
        In song (keys (recommendations_of input_songs rules)) ->
        In song (get_recommendations input_songs rules max_recommendations))
  /\ get_recommendations ["X"] scenario_B default_max_recommendations = [].
Proof.
  assert (Hchar : forall song,
        In song (keys (recommendations_of input_songs rules)) <->
        exists x, In x rules /\
                  (forall a, In a (as_set (antecedent x)) -> In a input_songs) /\
                  In song (as_set (consequent x)) /\ ~ In song input_songs).
  { intros song.
    rewrite (inv_keys _ _ (recommendations_invariant input_songs rules)).
    fold (encounter input_songs rules). rewrite In_encounter.
    split; intros [x H]; exists x; unfold qualifies in *;
      rewrite issubset_spec in *; exact H. }
  split; [|split; [exact Hchar|split; [|split]]].
  - intros d x [a [Ha Hna]]. unfold process_rule.
    destruct (issubset (as_set (antecedent x)) input_songs) eqn:E; [|reflexivity].
    exfalso. apply Hna. rewrite issubset_spec in E. auto.
  - intros song H. apply Hchar. eapply In_result_key. eassumption.
  - intros Hlim song H. rewrite get_recommendations_unfold.
    rewrite slice_to_all.
    + unfold keys in H. apply in_map_iff in H. destruct H as [p [<- Hp]].
      apply in_map. now apply sorted_desc_In.
    + rewrite (Permutation_length (sorted_desc_perm _)). assumption.
  - reflexivity.
Qed.


(** *** The scenarios of the specification, and instances of the theorems *)

Example scenario_A_result :
  get_recommendations ["X"] scenario_A default_max_recommendations = ["Y"; "Z"].
Proof. reflexivity. Qed.

Example scenario_C_result :
  get_recommendations ["Z"] scenario_A default_max_recommendations = [].
Proof. reflexivity. Qed.

Example scenario_E_result :
  get_recommendations ["X"] scenario_E default_max_recommendations = ["Y"].
Proof. reflexivity. Qed.

Lemma C2_witness :
  In "Y" (get_recommendations ["X"] scenario_E 10) /\
  count_occ string_dec (get_recommendations ["X"] scenario_E 10) "Y" = 1%nat /\
  exists best,
    dict_get (recommendations_of ["X"] scenario_E) "Y" = Some best /\
    95 # 100 <= best.
Proof.
  assert (Hin : In "Y" (get_recommendations ["X"] scenario_E 10))
    by (left; reflexivity).
  split; [exact Hin|].
  destruct (C2_once_with_highest_confidence ["X"] scenario_E 10 "Y" Hin)
    as [Hcount [best [Hget [_ [_ Hmax]]]]].
  split; [exact Hcount|]. exists best. split; [exact Hget|].
  apply (Hmax (mk_rule ["X"] ["Y"] (95 # 100))).
  - right. left. reflexivity.
  - reflexivity.
  - left. reflexivity.
Defined.

Lemma C3_witness :
  In "Y" (get_recommendations ["X"] scenario_A 10) /\ ~ In "Y" ["X"].
Proof.
  assert (Hin : In "Y" (get_recommendations ["X"] scenario_A 10))
    by (left; reflexivity).
  split; [exact Hin|].
  exact (C3_no_self_recommendation ["X"] scenario_A 10 "Y" Hin).
Defined.

Lemma C4_witness :
  process_rule ["X"] [("W", 1 # 2)] (mk_rule ["X"; "Y"] ["Z"] (8 # 10))
    = [("W", 1 # 2)] /\
  get_recommendations ["X"] scenario_B default_max_recommendations = [].
Proof.
  destruct (C4_antecedent_must_be_covered ["X"] scenario_B 10)
    as [Hskip [_ [_ [_ HB]]]].
  split; [|exact HB].
  apply Hskip. exists "Y". split.
  - right. left. reflexivity.
  - intros [H|[]]. discriminate H.
Defined.


(** *** Further properties of [get_recommendations] *)

Lemma keys_count (input : list string) (rules : list rule) :
  List.length (recommendations_of input rules) =
  List.length (nodup string_dec (encounter input rules)).
Proof.
  pose proof (recommendations_invariant input rules) as Inv.
  rewrite <- (length_map fst (recommendations_of input rules)).
  apply Permutation_length, NoDup_Permutation.
  - apply (inv_nodup _ _ Inv).
  - apply NoDup_nodup.
  - intros s. rewrite nodup_In. apply (inv_keys _ _ Inv).
Qed.

(** ** X1: the number of songs returned.  With a limit [n >= 0] it is the
    smaller of [n] and the number of distinct candidates; a negative limit
    drops the last [-n] candidates instead. *)
Theorem X1_result_length (input_songs : list string) (rules : list rule)
    (max_recommendations : Z) :
  List.length (get_recommendations input_songs rules max_recommendations) =
  if (max_recommendations <? 0)%Z
  then (List.length (nodup string_dec (encounter input_songs rules))
        - Z.to_nat (- max_recommendations))%nat
  else Nat.min (Z.to_nat max_recommendations)
               (List.length (nodup string_dec (encounter input_songs rules))).
Proof.
  rewrite get_recommendations_unfold, length_map. unfold slice_to.
  rewrite <- keys_count.
  rewrite <- (Permutation_length (sorted_desc_perm (recommendations_of input_songs rules))).
  destruct (max_recommendations <? 0)%Z eqn:E; rewrite length_firstn.
  - apply Z.ltb_lt in E. lia.
  - reflexivity.
Qed.

Lemma mem_same_elements (l l' : list string) :
  (forall s, In s l <-> In s l') -> forall s, mem s l = mem s l'.
Proof.
  intros H s. destruct (mem s l') eqn:E.
  - apply mem_In. apply H. now apply mem_In.
  - apply mem_false. intros Hin. apply H in Hin.
    apply mem_In in Hin. congruence.
Qed.

Lemma process_rule_same_elements (l l' : list string) :
  (forall s, In s l <-> In s l') ->
  forall d x, process_rule l d x = process_rule l' d x.
Proof.
  intros H d x. pose proof (mem_same_elements l l' H) as Hm.
  unfold process_rule, offer_consequent.
  assert (Hsub : issubset (as_set (antecedent x)) l' =
                 issubset (as_set (antecedent x)) l).
  { unfold issubset. induction (as_set (antecedent x)) as [|a ante IH];
      simpl; [reflexivity|]. now rewrite IH, Hm. }
  rewrite Hsub.
  destruct (issubset (as_set (antecedent x)) l); [|reflexivity].
  generalize d. induction (as_set (consequent x)) as [|s cons IH]; intros d0;
    simpl; [reflexivity|].
  rewrite <- Hm. apply IH.
Qed.

(** ** X2: only the set of liked songs matters: two liked lists with the same
    members (in any order, with any repetitions) get the same result. *)
Theorem X2_liked_list_is_a_set (input_songs input_songs' : list string)
    (rules : list rule) (max_recommendations : Z) :
  (forall s, In s input_songs <-> In s input_songs') ->
  get_recommendations input_songs rules max_recommendations =
  get_recommendations input_songs' rules max_recommendations.
Proof.
  intros H. rewrite !get_recommendations_unfold. do 3 f_equal.
  unfold recommendations_of. generalize (@nil (string * Q)).
  induction rules as [|x rules IH]; intros d; simpl; [reflexivity|].
  rewrite (process_rule_same_elements _ _ H). apply IH.
Qed.

Lemma X2_witness :
  (forall s, In s ["X"; "Y"; "X"] <-> In s ["Y"; "X"]) /\
  get_recommendations ["X"; "Y"; "X"] scenario_A 10 =
  get_recommendations ["Y"; "X"] scenario_A 10.
Proof.
  assert (H : forall s, In s ["X"; "Y"; "X"] <-> In s ["Y"; "X"])
    by (intros s; simpl; tauto).
  split; [exact H|].
  exact (X2_liked_list_is_a_set ["X"; "Y"; "X"] ["Y"; "X"] scenario_A 10 H).
Defined.

(** ** X3: a smaller limit returns a prefix of what a larger limit returns. *)
Theorem X3_smaller_limit_is_prefix (input_songs : list string)
    (rules : list rule) (n m : Z) :
  (0 <= n <= m)%Z ->
  get_recommendations input_songs rules n =
  firstn (Z.to_nat n) (get_recommendations input_songs rules m).
Proof.
  intros H. rewrite !get_recommendations_unfold. unfold slice_to.
  destruct (n <? 0)%Z eqn:En; [apply Z.ltb_lt in En; lia|].
  destruct (m <? 0)%Z eqn:Em; [apply Z.ltb_lt in Em; lia|].
  rewrite <- firstn_map, <- (firstn_map fst (Z.to_nat m)), firstn_firstn.
  f_equal. lia.
Qed.

Lemma X3_witness :
  (0 <= 1 <= 10)%Z /\
  get_recommendations ["X"] scenario_A 1 =
  firstn 1 (get_recommendations ["X"] scenario_A 10).
Proof.
  assert (H : (0 <= 1 <= 10)%Z) by lia.
  split; [exact H|].
  exact (X3_smaller_limit_is_prefix ["X"] scenario_A 1 10 H).
Defined.

Lemma offers_nil_result (input : list string) (rules : list rule) (n : Z) :
  offers input rules = [] -> get_recommendations input rules n = [].
Proof.
  intros H. rewrite get_recommendations_unfold, recommendations_of_absorb, H.
  unfold slice_to. simpl. destruct (n <? 0)%Z; now rewrite firstn_nil.
Qed.

(** ** X4: with no liked song, nothing is recommended as long as every rule
    has a non-empty antecedent; a rule whose antecedent is the empty set
    qualifies for every liked list. *)
Theorem X4_empty_liked_list (rules : list rule) (max_recommendations : Z) :
  ((forall x, In x rules -> as_set (antecedent x) <> []) ->
   get_recommendations [] rules max_recommendations = [])
  /\ (forall input_songs x,
        as_set (antecedent x) = [] -> qualifies input_songs x = true).
Proof.
  split.
  - intros H. apply offers_nil_result. unfold offers.
    induction rules as [|x rules IH]; simpl; [reflexivity|].
    rewrite IH by (intros y Hy; apply H; now right).
    unfold rule_offers, qualifies.
    specialize (H x (or_introl eq_refl)).
    destruct (as_set (antecedent x)); [contradiction | reflexivity].
  - intros input x H. unfold qualifies. now rewrite H.
Qed.

Lemma X4_witness :
  (forall x, In x scenario_A -> as_set (antecedent x) <> []) /\
  get_recommendations [] scenario_A 10 = [] /\
  qualifies ["Q"] (ItemSet [], ItemSet ["Z"], 1) = true.
Proof.
  destruct (X4_empty_liked_list scenario_A 10) as [H1 H2].
  assert (H : forall x, In x scenario_A -> as_set (antecedent x) <> []).
  { intros x [<-|[<-|[<-|[]]]]; discriminate. }
  split; [exact H|]. split; [exact (H1 H)|].
  apply H2. reflexivity.
Defined.


Lemma absorb_keys_extend (os : list (string * Q)) :
  forall d, exists extra, keys (absorb os d) = (keys d ++ extra)%list.
Proof.
  induction os as [|[s c] os IH]; intros d.
  - exists []. simpl. now rewrite app_nil_r.
  - change (absorb ((s, c) :: os) d) with (absorb os (offer c d s)).
    destruct (IH (offer c d s)) as [extra E]. rewrite E.
    destruct (keys_offer c d s) as [[_ Hk]|[_ Hk]]; rewrite Hk.
    + now exists extra.
    + exists (s :: extra). now rewrite <- app_assoc.
Qed.

Lemma absorb_get_grows (os : list (string * Q)) :
  forall d s c,
    dict_get d s = Some c ->
    exists c', dict_get (absorb os d) s = Some c' /\ c <= c'.
Proof.
  induction os as [|[s0 c0] os IH]; intros d s c H.
  - exists c. split; [assumption | lra].
  - change (absorb ((s0, c0) :: os) d) with (absorb os (offer c0 d s0)).
    assert (Hstep : exists c1, dict_get (offer c0 d s0) s = Some c1 /\ c <= c1).
    { destruct (string_dec s s0) as [->|Hne].
      - pose proof (dict_get_offer_same c0 d s0) as Hs. rewrite H in Hs.
        destruct Hs as [[Hlt Hs]|[Hle Hs]]; eexists; (split; [exact Hs | lra]).
      - exists c. rewrite dict_get_offer_other by assumption.
        split; [assumption | lra]. }
    destruct Hstep as [c1 [H1 Hle1]].
    destruct (IH _ _ _ H1) as [c' [H' Hle']].
    exists c'. split; [exact H' | lra].
Qed.

(** ** X5: appending rules to the model keeps every candidate: the candidates
    found so far stay in the dict in the same order, new ones come after
    them, and no candidate's confidence goes down. *)
Theorem X5_more_rules_only_add (input_songs : list string)
    (rules more : list rule) :
  (exists extra,
     keys (recommendations_of input_songs (rules ++ more)) =
     (keys (recommendations_of input_songs rules) ++ extra)%list)
  /\ (forall song c,
        dict_get (recommendations_of input_songs rules) song = Some c ->
        exists c',
          dict_get (recommendations_of input_songs (rules ++ more)) song
            = Some c' /\ c <= c').
Proof.
  assert (E : recommendations_of input_songs (rules ++ more) =
              absorb (offers input_songs more)
                     (recommendations_of input_songs rules)).
  { unfold recommendations_of. rewrite fold_left_app.
    apply fold_process_rule_absorb. }
  rewrite E. split.
  - apply absorb_keys_extend.
  - intros song c H. now apply absorb_get_grows.
Qed.

Lemma X5_witness :
  dict_get (recommendations_of ["X"] [mk_rule ["X"] ["Y"] (6 # 10)]) "Y"
    = Some (6 # 10) /\
  exists c',
    dict_get (recommendations_of ["X"]
                ([mk_rule ["X"] ["Y"] (6 # 10)] ++
                 [mk_rule ["X"] ["Y"] (95 # 100)])) "Y" = Some c' /\
    6 # 10 <= c'.
Proof.
  assert (H : dict_get (recommendations_of ["X"]
                          [mk_rule ["X"] ["Y"] (6 # 10)]) "Y" = Some (6 # 10))
    by reflexivity.
  split; [exact H|].
  destruct (X5_more_rules_only_add ["X"] [mk_rule ["X"] ["Y"] (6 # 10)]
              [mk_rule ["X"] ["Y"] (95 # 100)]) as [_ Hgrow].
  exact (Hgrow "Y" (6 # 10) H).
Defined.

Lemma StronglySorted_app_cross {A : Type} (R : A -> A -> Prop)
    (l1 l2 : list A) :
  StronglySorted R (l1 ++ l2) ->
  forall a b, In a l1 -> In b l2 -> R a b.
Proof.
  induction l1 as [|x l1 IH]; simpl; intros Hs a b Ha Hb; [contradiction|].
  inversion Hs as [|? ? Hs' Hall]; subst.
  destruct Ha as [<-|Ha].
  - rewrite Forall_forall in Hall. apply Hall, in_or_app. now right.
  - now apply IH.
Qed.

(** ** X6: the limit cuts off the weakest candidates: a candidate that is
    left out of the result has a confidence no higher than that of any song
    in the result. *)
Theorem X6_cut_off_candidates_rank_lower (input_songs : list string)
    (rules : list rule) (max_recommendations : Z) (kept dropped : string)
    (ck cd : Q) :
  In kept (get_recommendations input_songs rules max_recommendations) ->
  ~ In dropped (get_recommendations input_songs rules max_recommendations) ->
  dict_get (recommendations_of input_songs rules) kept = Some ck ->
  dict_get (recommendations_of input_songs rules) dropped = Some cd ->
  cd <= ck.
Proof.
  set (T := recommendations_of input_songs rules).
  intros Hk Hd Gk Gd.
  pose proof (recommendations_invariant input_songs rules) as Inv. fold T in Inv.
  assert (Hcut : exists k,
             slice_to max_recommendations (sorted_desc T)
             = firstn k (sorted_desc T)).
  { unfold slice_to. destruct (max_recommendations <? 0)%Z; eauto. }
  destruct Hcut as [k Hcut].
  destruct (In_result_pair _ _ _ _ Hk) as [c [Hin Hg]]. fold T in Hin, Hg.
  rewrite Gk in Hg. injection Hg as <-. rewrite Hcut in Hin.
  assert (Hd' : In (dropped, cd) (skipn k (sorted_desc T))).
  { assert (Hall : In (dropped, cd) (sorted_desc T))
      by (apply sorted_desc_In; now apply dict_get_Some_In).
    rewrite <- (firstn_skipn k (sorted_desc T)) in Hall.
    apply in_app_or in Hall. destruct Hall as [Hf|Hs]; [|exact Hs].
    exfalso. apply Hd. rewrite get_recommendations_unfold. fold T.
    rewrite Hcut. change dropped with (fst (dropped, cd)). now apply in_map. }
  assert (Hs : StronglySorted (pair_before (fun s => index_of s (keys T)))
                 (firstn k (sorted_desc T) ++ skipn k (sorted_desc T))).
  { rewrite firstn_skipn. apply sorted_desc_sorted.
    apply (proj2 (StronglySorted_map fst
             (fun a b => (index_of a (keys T) < index_of b (keys T))%nat) T)).
    apply NoDup_sorted_by_index, (inv_nodup _ _ Inv). }
  destruct (StronglySorted_app_cross _ _ _ Hs _ _ Hin Hd') as [H|[H _]];
    simpl in H; lra.
Qed.

Lemma X6_witness :
  In "Y" (get_recommendations ["X"] scenario_A 1) /\
  ~ In "Z" (get_recommendations ["X"] scenario_A 1) /\
  9 # 10 <= 9 # 10.
Proof.
  assert (Hk : In "Y" (get_recommendations ["X"] scenario_A 1))
    by (left; reflexivity).
  assert (Hd : ~ In "Z" (get_recommendations ["X"] scenario_A 1))
    by (intros [H|[]]; discriminate H).
  split; [exact Hk|]. split; [exact Hd|].
  exact (X6_cut_off_candidates_rank_lower ["X"] scenario_A 1 "Y" "Z"
           (9 # 10) (9 # 10) Hk Hd eq_refl eq_refl).
Defined.


Lemma In_result_not_liked (input : list string) (rules : list rule) (n : Z)
    (s : string) :
  In s (get_recommendations input rules n) -> ~ In s input.
Proof.
  intros Hin. apply In_result_key in Hin.
  apply (inv_keys _ _ (recommendations_invariant input rules)) in Hin.
  apply In_encounter in Hin. destruct Hin as [x H]. tauto.
Qed.

Lemma result_length_le (input : list string) (rules : list rule) (n : Z) :
  (0 <= n)%Z ->
  (List.length (get_recommendations input rules n) <= Z.to_nat n)%nat.
Proof.
  intros H. rewrite get_recommendations_unfold, length_map. unfold slice_to.
  destruct (n <? 0)%Z eqn:E; [apply Z.ltb_lt in E; lia|].
  apply firstn_le_length.
Qed.


End EngineFacts.

(* ================================================================== *)
(** ** Properties of the server *)
(* ================================================================== *)

Module ServerFacts.
Import Engine Server.

(** Unfolding of the monad and of the primitive operations. *)
Ltac unfold_py :=
  unfold serve, recommend, check_and_reload_model_once, load_model,
    with_lock, bind, try_except,
    ret, raise, emit, print, path_exists, getmtime, pickle_load,
    get_model_data, get_model_last_modified, set_model_data,
    set_model_last_modified, subscript_metadata, meta_get, get_rules,
    get_json, store_of, trace_of, value_of.

Ltac step_py := cbn -[truthy needs_reload lookup].

(** *** The loader *)

Lemma load_model_run (d : disk) (st : store) :
  exists t, load_model d st = (Ok (unpickled d), st, t).
Proof.
  destruct d as [[m [|v]]|]; eexists; reflexivity.
Qed.

Lemma loaded_unpickled (d : disk) : loaded d = Ok (unpickled d).
Proof.
  unfold loaded. destruct (load_model_run d initial_store) as [t ->]. reflexivity.
Qed.

(** *** One poll iteration *)

(** Case analysis on everything an iteration looks at, running the iteration
    in each case; [fin] closes the resulting goal. *)
Ltac poll_tick_cases d st fin :=
  let N := fresh "N" in
  let Tv := fresh "Tv" in
  let Em := fresh "Em" in
  let Ev := fresh "Ev" in
  let Ed := fresh "Ed" in
  destruct d as [[?m [|[?c|?rs ?others]]]|];
  destruct st as [?md ?last];
  cbn [model_last_modified mtime unpickled content];
  [ destruct (needs_reload last m) eqn:N;
    unfold_py; step_py; rewrite N; fin
  | destruct (needs_reload last m) eqn:N;
    [ destruct (truthy (PScalar c)) eqn:Tv | ];
    unfold_py; step_py; rewrite N; step_py; rewrite ?Tv; fin
  | destruct (needs_reload last m) eqn:N;
    [ destruct (truthy (PDict rs others)) eqn:Tv;
      [ destruct (lookup "metadata" others) as [[?c|?kvs]|] eqn:Em;
        [ | destruct (lookup "version" kvs) eqn:Ev;
            destruct (lookup "model_date" kvs) eqn:Ed | ]
      | ]
    | ];
    unfold_py; step_py; rewrite N; step_py; rewrite ?Tv; step_py;
    rewrite ?Em; step_py; rewrite ?Ev; step_py; rewrite ?Em; step_py;
    rewrite ?Ed; fin
  | unfold_py; step_py; fin ].

(** The store an iteration leaves behind. *)
Lemma poll_tick_store (d : disk) (st : store) :
  store_of (check_and_reload_model_once d st) =
  match d with
  | None => st
  | Some f =>
      if needs_reload (model_last_modified st) (mtime f) && truthy (unpickled d)
      then {| model_data := unpickled d; model_last_modified := Some (mtime f) |}
      else st
  end.
Proof.
  poll_tick_cases d st ltac:(rewrite ?andb_false_r; reflexivity).
Qed.

(** An iteration never raises. *)
Lemma poll_tick_returns (d : disk) (st : store) :
  value_of (check_and_reload_model_once d st) = Ok tt.
Proof.
  poll_tick_cases d st ltac:(reflexivity).
Qed.

(** Lock discipline of an iteration. *)
Lemma poll_tick_locking (d : disk) (st : store) :
  load_inside_lock (trace_of (check_and_reload_model_once d st)) = true /\
  lock_held_after false (trace_of (check_and_reload_model_once d st)) = false /\
  hd_error (trace_of (check_and_reload_model_once d st)) = Some EStat.
Proof.
  poll_tick_cases d st ltac:(repeat split; reflexivity).
Qed.

(** Whether an iteration reads the file under the lock. *)
Lemma poll_tick_loads_under_lock (d : disk) (st : store) :
  existsb (fun p => is_ELoad (fst p) && snd p)
    (under_lock false (trace_of (check_and_reload_model_once d st))) =
  match d with
  | None => false
  | Some f => needs_reload (model_last_modified st) (mtime f)
  end.
Proof.
  poll_tick_cases d st ltac:(reflexivity).
Qed.




(** A failed load leaves the store as it was. *)
Lemma failed_load_keeps_store (d : disk) (st : store) :
  load_fails d -> store_of (check_and_reload_model_once d st) = st.
Proof.
  intros H. unfold load_fails in H. rewrite loaded_unpickled in H.
  injection H as H. rewrite poll_tick_store, H.
  destruct d; [|reflexivity]. cbn. now rewrite andb_false_r.
Qed.

Lemma failed_loads_keep_store (ds : list disk) (st : store) :
  Forall load_fails ds -> check_and_reload_model ds st = st.
Proof.
  intros H. revert st.
  induction H as [|d ds Hd _ IH]; intros st; simpl; [reflexivity|].
  now rewrite failed_load_keeps_store.
Qed.

(** A failed initial load leaves the store without a model. *)
Lemma failed_initial_load (d : disk) :
  load_fails d -> store_of (initialize_app d initial_store) = initial_store.
Proof.
  intros H. unfold load_fails in H. rewrite loaded_unpickled in H.
  injection H as H.
  destruct d as [[m [|v]]|]; cbn in H; subst; reflexivity.
Qed.

(** *** The request handler *)

Section HandlerFacts.

Variable environ : list (string * string).

Ltac step_rq :=
  cbn -[is_None json_truthy rules_truthy forallb existsb String.index lookup
        get_recommendations scalar_truthy].

Lemma serve_absent (b : body) (d : disk) (st : store) :
  is_None (model_data st) = true ->
  serve environ b d st =
  (Failure 503 "Model not loaded", st, [EAcquire; EReadStore; ERelease]).
Proof.
  intros H. unfold_py. step_rq. rewrite H. reflexivity.
Qed.

Lemma serve_rejected (b : body) (d : disk) (st : store) :
  is_None (model_data st) = false ->
  rejected_request b = true ->
  exists msg,
    serve environ b d st =
    (Failure 400 msg, st, [EAcquire; EReadStore; EGetJson; ERelease]).
Proof.
  intros Hn Hr. destruct b as [|data].
  - eexists. unfold_py. step_rq. rewrite Hn. reflexivity.
  - destruct (json_truthy data) eqn:Jt.
    + destruct data as [|? |? |? |? |kvs];
        try (cbn [rejected_request] in Hr; rewrite Jt in Hr; discriminate).
      cbn [rejected_request] in Hr. destruct (lookup "songs" kvs) as [v|] eqn:Es.
      * destruct v; try discriminate; eexists; unfold_py; step_rq;
          rewrite Hn; step_rq; rewrite Jt; unfold contains_songs, subscript_songs;
          step_rq; rewrite Es; step_rq; rewrite ?Es; reflexivity.
      * eexists; unfold_py; step_rq;
          rewrite Hn; step_rq; rewrite Jt; unfold contains_songs, subscript_songs;
          step_rq; rewrite Es; reflexivity.
    + eexists. unfold_py. step_rq. rewrite Hn. step_rq. rewrite Jt. reflexivity.
Qed.



Lemma generate_response_success (l : list json) (d : disk) (st : store)
    (ok : ok_body) :
  value_of (generate_response environ l d st) = Ok (Success ok) ->
  version ok = SERVER_VERSION environ /\
  metadata_model_date (model_data st) = Some (model_date ok) /\
  num_recommendations ok = List.length (songs ok) /\
  input_songs ok = l.
Proof.
  destruct st as [md last]. cbn [model_data].
  unfold generate_response, call_get_recommendations.
  destruct md as [c|[rv|] others].
  - unfold_py. step_rq. discriminate.
  - destruct (rules_truthy rv) eqn:Rt;
      [destruct (forallb hashable l) eqn:Fh; [destruct rv as [[| |]|rs]|]|];
      (destruct (lookup "metadata" others) as [[c|kvs]|] eqn:Em;
       [|destruct (lookup "model_date" kvs) eqn:Ed|]);
      unfold_py; step_rq; rewrite ?Rt; step_rq; rewrite ?Fh; step_rq;
      rewrite ?Em; step_rq; rewrite ?Ed; step_rq;
      try discriminate; intros H; inversion H; subst; repeat split; reflexivity.
  - (destruct (lookup "metadata" others) as [[c|kvs]|] eqn:Em;
       [|destruct (lookup "model_date" kvs) eqn:Ed|]);
      unfold_py; cbn -[lookup]; rewrite ?Em; cbn -[lookup]; rewrite ?Ed;
      cbn -[lookup]; try discriminate; intros H; inversion H; subst; repeat split; reflexivity.
Qed.

Lemma serve_success (b : body) (d : disk) (st : store) (ok : ok_body) :
  fst (fst (serve environ b d st)) = Success ok ->
  version ok = SERVER_VERSION environ /\
  metadata_model_date (model_data st) = Some (model_date ok) /\
  num_recommendations ok = List.length (songs ok) /\
  exists kvs, b = Body (JObj kvs) /\
              lookup "songs" kvs = Some (JArr (input_songs ok)).
Proof.
  intros H. destruct (is_None (model_data st)) eqn:Hn.
  { rewrite serve_absent in H by assumption. discriminate. }
  destruct (rejected_request b) eqn:Hr.
  { destruct (serve_rejected b d st Hn Hr) as [msg E]. rewrite E in H. discriminate. }
  destruct b as [|data]; [discriminate|].
  assert (Jt : json_truthy data = true).
  { destruct data as [| | | | |kvs]; cbn [rejected_request] in Hr;
      try (apply negb_false_iff in Hr; exact Hr).
    destruct kvs; [discriminate | reflexivity]. }
  destruct data as [|jb|q|s|l|kvs].
  - discriminate.
  - revert H. unfold serve, recommend, contains_songs. unfold_py. step_rq.
    rewrite Hn. step_rq. rewrite Jt. step_rq. discriminate.
  - revert H. unfold serve, recommend, contains_songs. unfold_py. step_rq.
    rewrite Hn. step_rq. rewrite Jt. step_rq. discriminate.
  - revert H. unfold serve, recommend, contains_songs. unfold_py. step_rq.
    rewrite Hn. step_rq. rewrite Jt. step_rq.
    destruct (String.index 0 "songs" s); step_rq; discriminate.
  - revert H. unfold serve, recommend, contains_songs. unfold_py. step_rq.
    rewrite Hn. step_rq. rewrite Jt. step_rq.
    destruct (existsb (is_JStr "songs") l); step_rq; discriminate.
  - cbn [rejected_request] in Hr.
    destruct (lookup "songs" kvs) as [[| | | |l|]|] eqn:Es; try discriminate.
    destruct (generate_response environ l d st) as [[res st'] t] eqn:G.
    revert H. unfold serve, recommend, contains_songs, subscript_songs.
    unfold with_lock, bind, try_except, ret, get_model_data, get_json.
    step_rq. rewrite Hn. step_rq. rewrite Jt. step_rq. rewrite Es. step_rq.
    rewrite ?Es. step_rq. rewrite G. step_rq.
    destruct res as [resp|e]; step_rq; [|discriminate].
    intros ->.
    assert (G' : value_of (generate_response environ l d st) = Ok (Success ok))
      by (rewrite G; reflexivity).
    apply generate_response_success in G'.
    destruct G' as [Hv [Hd [Hnum Hl]]]. repeat split; try assumption.
    exists kvs. split; [reflexivity | now rewrite Hl].
Qed.


Lemma serve_trace_head (b : body) (d : disk) (st : store) :
  exists t, trace_of (serve environ b d st) = EAcquire :: EReadStore :: t.
Proof.
  unfold serve, recommend, with_lock.
  match goal with
  | |- context [bind get_model_data ?k] => set (K := k)
  end.
  unfold bind, get_model_data.
  destruct (K (model_data st) d st) as [[res st'] t].
  destruct res; eexists; reflexivity.
Qed.


End HandlerFacts.


(** *** The claims about the server *)

(** ** C5, as the code has it: [load_model] never raises and leaves the store
    alone; it returns [None] both when the file is missing and when reading
    or unpickling it fails, and otherwise returns the unpickled object as it
    is, whatever its structure. *)
Theorem C5_load_model_None_or_unvalidated_object (d : disk) (st : store) :
  exists t,
    load_model d st =
    (Ok (match d with
         | None => PNone
         | Some f =>
             match content f with
             | Unreadable => PNone
             | Pickle v => v
             end
         end), st, t).
Proof.
  destruct d as [[m [|v]]|]; eexists; reflexivity.
Qed.

(** C5 fails as stated: a missing file and an unreadable file give the same
    [None], and a dict with neither ['rules'] nor ['metadata'] is returned
    (and then published by the poller) as a model. *)
Lemma C5_counterexample :
  loaded None = Ok PNone /\
  loaded (Some garbage_file) = Ok PNone /\
  spec_well_formed bad_model = false /\
  loaded (Some bad_file) = Ok bad_model /\
  model_data (store_of (check_and_reload_model_once (Some bad_file) good_store)) = bad_model.
Proof. repeat split; reflexivity. Qed.




(** ** C7: while the store holds no model, every request is answered with
    the 503 "Model not loaded" response: the handler returns it (it does not
    raise) and it is not a success response.  This is the answer as long as
    the initial load and every reload so far have failed.  Any success
    response, an empty list of songs included, means that a model was held. *)
Theorem C7_absent_model_is_unavailable (environ : list (string * string)) :
  (forall b d st,
     is_None (model_data st) = true ->
     recommend environ b d st =
       (Ok (Failure 503 "Model not loaded"), st,
        [EAcquire; EReadStore; ERelease])
     /\ fst (fst (serve environ b d st)) = Failure 503 "Model not loaded"
     /\ (forall ok, fst (fst (serve environ b d st)) <> Success ok))
  /\ (forall d0 ds b d,
        load_fails d0 -> Forall load_fails ds ->
        fst (fst (serve environ b d
                    (check_and_reload_model ds
                       (store_of (initialize_app d0 initial_store)))))
        = Failure 503 "Model not loaded")
  /\ (forall b d st ok,
        fst (fst (serve environ b d st)) = Success ok ->
        is_None (model_data st) = false).
Proof.
  split; [|split].
  - intros b d st H.
    assert (R : recommend environ b d st =
      (Ok (Failure 503 "Model not loaded"), st,
       [EAcquire; EReadStore; ERelease])).
    { unfold_py. cbn -[is_None]. rewrite H. reflexivity. }
    split; [exact R|]. unfold serve. rewrite R.
    split; [reflexivity|discriminate].
  - intros d0 ds b d H0 Hds.
    rewrite failed_initial_load, failed_loads_keep_store by assumption.
    now rewrite serve_absent.
  - intros b d st ok H.
    destruct (is_None (model_data st)) eqn:Hn; [|reflexivity].
    rewrite serve_absent in H by assumption. discriminate.
Qed.

Lemma C7_witness :
  is_None (model_data initial_store) = true /\
  fst (fst (serve [] liked_Q None initial_store)) = Failure 503 "Model not loaded" /\
  fst (fst (serve [] liked_Q None
              (check_and_reload_model [Some garbage_file]
                 (store_of (initialize_app None initial_store)))))
    = Failure 503 "Model not loaded" /\
  (exists ok, fst (fst (serve [] liked_Q None good_store)) = Success ok /\
              songs ok = [] /\ is_None (model_data good_store) = false).
Proof.
  destruct (C7_absent_model_is_unavailable []) as [H1 [H2 H3]].
  split; [reflexivity|]. split; [|split].
  - apply (H1 liked_Q None initial_store). reflexivity.
  - apply H2; [reflexivity | repeat constructor].
  - eexists. split; [reflexivity|]. split; [reflexivity|].
    eapply (H3 liked_Q None good_store). reflexivity.
Defined.

(** ** C8, as the code has it: the handler takes the lock and reads the store
    first.  A request whose body cannot be parsed, is a false JSON value, or
    is an object without a list under ['songs'] gets status 400 when a model
    is held, and status 503 when none is. *)
Theorem C8_invalid_request_after_model_check (environ : list (string * string))
    (b : body) (d : disk) (st : store) :
  rejected_request b = true ->
  (is_None (model_data st) = false ->
   exists msg,
     serve environ b d st =
     (Failure 400 msg, st, [EAcquire; EReadStore; EGetJson; ERelease]))
  /\ (is_None (model_data st) = true ->
      serve environ b d st =
      (Failure 503 "Model not loaded", st, [EAcquire; EReadStore; ERelease])).
Proof.
  intros Hr. split; intros Hn.
  - now apply serve_rejected.
  - now apply serve_absent.
Qed.

Lemma C8_witness :
  rejected_request (Body (JObj [("songs", JStr "X")])) = true /\
  is_400 (fst (fst (serve [] (Body (JObj [("songs", JStr "X")])) None good_store)))
    = true.
Proof.
  split; [reflexivity|].
  destruct (C8_invalid_request_after_model_check []
              (Body (JObj [("songs", JStr "X")])) None good_store eq_refl)
    as [H _].
  destruct (H eq_refl) as [msg E]. rewrite E. reflexivity.
Defined.

(** C8 fails as stated: with no model held, an unparseable body is answered
    with 503, not 400, and the handler has locked and read the store. *)
Lemma C8_counterexample :
  spec_invalid_request BadBody = true /\
  serve [] BadBody None initial_store =
    (Failure 503 "Model not loaded", initial_store,
     [EAcquire; EReadStore; ERelease]) /\
  is_400 (fst (fst (serve [] BadBody None initial_store))) = false /\
  existsb touches_store (trace_of (serve [] BadBody None initial_store)) = true.
Proof. repeat split; reflexivity. Qed.

(** ** C9, as the code has it: an iteration stats the file before taking the
    lock, but whenever it reloads, the disk read and parse happen while it
    holds [app.model_lock]; the lock is free again when the iteration ends;
    and every request starts by taking that same lock. *)
Theorem C9_reload_runs_under_the_lock (d : disk) (st : store) :
  load_inside_lock (trace_of (check_and_reload_model_once d st)) = true /\
  existsb (fun p => is_ELoad (fst p) && snd p)
    (under_lock false (trace_of (check_and_reload_model_once d st))) =
    match d with
    | None => false
    | Some f => needs_reload (model_last_modified st) (mtime f)
    end /\
  hd_error (trace_of (check_and_reload_model_once d st)) = Some EStat /\
  lock_held_after false (trace_of (check_and_reload_model_once d st)) = false /\
  (forall environ b d' st',
     hd_error (trace_of (serve environ b d' st')) = Some EAcquire).
Proof.
  destruct (poll_tick_locking d st) as [H1 [H2 H3]].
  repeat split; try assumption.
  - apply poll_tick_loads_under_lock.
  - intros environ b d' st'.
    destruct (serve_trace_head environ b d' st') as [t ->]. reflexivity.
Qed.

(** C9 fails as stated: the first iteration on a fresh model file reads the
    file while holding the lock, and there is a schedule after which the
    poller is about to read the file and a request waits for the lock. *)
Lemma C9_counterexample :
  load_outside_lock (trace_of (check_and_reload_model_once (Some good_file) initial_store)) = false /\
  exists c,
    run_schedule [0; 0; 0; 0; 0; 0]%nat
      {| lock_owner := None;
         pending := [trace_of (check_and_reload_model_once (Some good_file) initial_store);
                     trace_of (serve [] liked_X (Some good_file) initial_store)] |}
    = Some c /\
    about_to_load 0 c = true /\
    blocked 1 c = true.
Proof.
  split; [reflexivity|]. eexists. repeat split; reflexivity.
Qed.

(** ** C10: in every success response, [version] is [SERVER_VERSION] (the
    environment's value, ["1.0"] when unset) whatever the model's metadata
    says, and [model_date] is what the metadata holds under ['model_date']. *)
Theorem C10_version_is_server_version (environ : list (string * string))
    (b : body) (d : disk) (st : store) (ok : ok_body) :
  fst (fst (serve environ b d st)) = Success ok ->
  version ok =
    match lookup "SERVER_VERSION" environ with
    | Some v => v
    | None => "1.0"
    end
  /\ metadata_model_date (model_data st) = Some (model_date ok)
  /\ (forall b' d' st' ok',
        fst (fst (serve environ b' d' st')) = Success ok' ->
        version ok' = version ok).
Proof.
  intros H. apply serve_success in H. destruct H as [Hv [Hd _]].
  split; [exact Hv|]. split; [exact Hd|].
  intros b' d' st' ok' H'. apply serve_success in H'.
  destruct H' as [Hv' _]. congruence.
Qed.

Lemma C10_witness :
  fst (fst (serve [] liked_X None good_store)) =
    Success {| songs := ["Y"; "Z"];
               version := "1.0";
               model_date := SStr "2024-01-01T12:00:00";
               input_songs := [JStr "X"];
               num_recommendations := 2 |}
  /\ version {| songs := ["Y"; "Z"];
                version := "1.0";
                model_date := SStr "2024-01-01T12:00:00";
                input_songs := [JStr "X"];
                num_recommendations := 2 |} = "1.0"
  /\ metadata_model_date (model_data good_store)
     = Some (SStr "2024-01-01T12:00:00").
Proof.
  assert (E : fst (fst (serve [] liked_X None good_store)) =
    Success {| songs := ["Y"; "Z"];
               version := "1.0";
               model_date := SStr "2024-01-01T12:00:00";
               input_songs := [JStr "X"];
               num_recommendations := 2 |}) by reflexivity.
  split; [exact E|].
  destruct (C10_version_is_server_version [] liked_X None good_store _ E)
    as [Hv [Hd _]].
  split; [exact Hv | exact Hd].
Defined.


(** *** Computations that only read *)

Lemma quiet_ret {A : Type} (a : A) : quiet (ret a).
Proof. intros d st. split; reflexivity. Qed.

Lemma quiet_raise {A : Type} (e : exn) : quiet (@raise A e).
Proof. intros d st. split; reflexivity. Qed.

Lemma quiet_bind {A B : Type} (m : M A) (k : A -> M B) :
  quiet m -> (forall a, quiet (k a)) -> quiet (bind m k).
Proof.
  intros Hm Hk d st. unfold bind.
  specialize (Hm d st). destruct (m d st) as [[res st1] t1].
  cbn [store_of trace_of fst snd] in Hm. destruct Hm as [-> Ht1].
  destruct res as [a|e]; [|split; [reflexivity | exact Ht1]].
  specialize (Hk a d st). destruct (k a d st) as [[rb st2] t2].
  cbn [store_of trace_of fst snd] in *. destruct Hk as [-> Ht2].
  split; [reflexivity|]. rewrite forallb_app, Ht1, Ht2. reflexivity.
Qed.

Lemma quiet_try_except {A : Type} (m : M A) (h : exn -> M A) :
  quiet m -> (forall e, quiet (h e)) -> quiet (try_except m h).
Proof.
  intros Hm Hh d st. unfold try_except.
  specialize (Hm d st). destruct (m d st) as [[res st1] t1].
  cbn [store_of trace_of fst snd] in Hm. destruct Hm as [-> Ht1].
  destruct res as [a|e]; [split; [reflexivity | exact Ht1]|].
  specialize (Hh e d st). destruct (h e d st) as [[ra st2] t2].
  cbn [store_of trace_of fst snd] in *. destruct Hh as [-> Ht2].
  split; [reflexivity|]. rewrite forallb_app, Ht1, Ht2. reflexivity.
Qed.

Lemma quiet_get_model_data : quiet get_model_data.
Proof. intros d st. split; reflexivity. Qed.

Lemma quiet_get_json (b : body) : quiet (get_json b).
Proof. intros d st. destruct b; split; reflexivity. Qed.

Ltac quiet_step :=
  first
    [ apply quiet_ret
    | apply quiet_raise
    | apply quiet_get_model_data
    | apply quiet_get_json
    | apply quiet_bind; [|intros ?]
    | apply quiet_try_except; [|intros ?]
    | match goal with
      | |- quiet (match ?x with _ => _ end) => destruct x
      end ].

Lemma quiet_generate_response (environ : list (string * string))
    (l : list json) :
  quiet (generate_response environ l).
Proof.
  unfold generate_response, get_rules, call_get_recommendations,
    subscript_metadata, meta_get.
  repeat quiet_step.
Qed.

(** What [with app.model_lock:] adds around a computation that only reads. *)
Lemma with_lock_quiet {A : Type} (m : M A) (d : disk) (st : store) :
  quiet m ->
  store_of (with_lock m d st) = st /\
  exists t,
    trace_of (with_lock m d st) = (EAcquire :: t ++ [ERelease])%list /\
    forallb lock_neutral t = true.
Proof.
  intros Hm. unfold with_lock. specialize (Hm d st).
  destruct (m d st) as [[res st1] t1].
  cbn [store_of trace_of fst snd] in *. destruct Hm as [-> Ht].
  split; [reflexivity|]. exists t1. split; [reflexivity | exact Ht].
Qed.

Lemma lock_released_at_end (t : list event) (held : bool) :
  lock_held_after held (t ++ [ERelease]) = false.
Proof.
  revert held. induction t as [|e t IH]; intros held; [reflexivity|].
  destruct e; simpl; apply IH.
Qed.

Lemma neutral_no_write (t : list event) :
  forallb lock_neutral t = true -> existsb is_EWriteStore t = false.
Proof.
  induction t as [|e t IH]; simpl; [reflexivity|].
  intros H. apply andb_true_iff in H. destruct H as [He Ht].
  rewrite (IH Ht). destruct e; try reflexivity; discriminate.
Qed.

(** ** X7: whatever the request and whatever the store holds, [recommend]
    leaves the store exactly as it found it, never assigns to it, takes the
    lock once at the start and has released it when it returns -- also when
    an exception leaves the handler. *)
Theorem X7_recommend_only_reads (environ : list (string * string))
    (b : body) (d : disk) (st : store) :
  store_of (serve environ b d st) = st /\
  existsb is_EWriteStore (trace_of (serve environ b d st)) = false /\
  lock_held_after false (trace_of (serve environ b d st)) = false /\
  exists t,
    trace_of (serve environ b d st) = (EAcquire :: t ++ [ERelease])%list /\
    forallb lock_neutral t = true.
Proof.
  assert (Hq : forall A (m : M A), quiet m ->
            store_of (with_lock m d st) = st /\
            exists t,
              trace_of (with_lock m d st) = (EAcquire :: t ++ [ERelease])%list /\
              forallb lock_neutral t = true)
    by (intros; now apply with_lock_quiet).
  assert (Hbody : store_of (recommend environ b d st) = st /\
            exists t,
              trace_of (recommend environ b d st)
                = (EAcquire :: t ++ [ERelease])%list /\
              forallb lock_neutral t = true).
  { unfold recommend. apply Hq.
    unfold contains_songs, subscript_songs.
    repeat first [ apply quiet_generate_response | quiet_step ]. }
  assert (Hs : store_of (serve environ b d st) = store_of (recommend environ b d st)
               /\ trace_of (serve environ b d st)
                  = trace_of (recommend environ b d st)).
  { unfold serve. destruct (recommend environ b d st) as [[[resp|e] st'] t];
      split; reflexivity. }
  destruct Hs as [-> ->]. destruct Hbody as [Hst [t [Ht Hn]]].
  split; [exact Hst|]. rewrite Ht. split; [|split].
  - simpl. rewrite existsb_app, (neutral_no_write t Hn). reflexivity.
  - simpl. apply lock_released_at_end.
  - exists t. split; [reflexivity | exact Hn].
Qed.


(** *** The response block *)

Section ResponseFacts.

Variable environ : list (string * string).

Ltac step_gr :=
  cbn -[rules_truthy forallb lookup get_recommendations scalar_truthy].

Lemma generate_response_returns (l : list json) (d : disk) (st : store) :
  exists resp, value_of (generate_response environ l d st) = Ok resp.
Proof.
  unfold generate_response, try_except, value_of.
  match goal with
  | |- context [bind ?m ?k d st] => destruct (bind m k d st) as [[[a|e] st'] t]
  end; eexists; reflexivity.
Qed.

(** A request with a list under ['songs'], sent while a model is held, is
    answered by the response block. *)
Lemma serve_valid_request (kvs : list (string * json)) (l : list json)
    (d : disk) (st : store) (resp : response) :
  lookup "songs" kvs = Some (JArr l) ->
  is_None (model_data st) = false ->
  value_of (generate_response environ l d st) = Ok resp ->
  fst (fst (serve environ (Body (JObj kvs)) d st)) = resp.
Proof.
  intros Hs Hn Hg.
  assert (Jt : json_truthy (JObj kvs) = true)
    by (destruct kvs; [discriminate | reflexivity]).
  destruct (generate_response environ l d st) as [[res st'] t] eqn:G.
  cbn in Hg. subst res.
  unfold serve, recommend, contains_songs, subscript_songs.
  unfold with_lock, bind, try_except, ret, get_model_data, get_json.
  cbn -[is_None json_truthy lookup generate_response].
  rewrite Hn. cbn -[is_None json_truthy lookup generate_response].
  rewrite Jt. cbn -[is_None json_truthy lookup generate_response].
  rewrite Hs. cbn -[is_None json_truthy lookup generate_response].
  rewrite ?Hs. cbn -[is_None json_truthy lookup generate_response].
  rewrite G. reflexivity.
Qed.

Lemma generate_response_well_formed (l : list json) (d : disk)
    (rules : list rule) (others : list (string * meta_val))
    (last : option Q) (mkvs : list (string * scalar)) :
  forallb hashable l = true ->
  lookup "metadata" others = Some (MDict mkvs) ->
  value_of (generate_response environ l d
              {| model_data := PDict (Some (RList rules)) others;
                 model_last_modified := last |}) =
  Ok (Success
        {| songs := get_recommendations (liked_names l) rules
                      default_max_recommendations;
           version := SERVER_VERSION environ;
           model_date := match lookup "model_date" mkvs with
                         | Some v => v
                         | None => SStr "unknown"
                         end;
           input_songs := l;
           num_recommendations :=
             List.length (get_recommendations (liked_names l) rules
                            default_max_recommendations) |}).
Proof.
  intros Hh Hm. unfold generate_response, call_get_recommendations.
  destruct rules as [|x rules];
    destruct (lookup "model_date" mkvs) eqn:Ed;
    unfold_py; cbn -[forallb lookup get_recommendations]; rewrite ?Hh;
    cbn -[forallb lookup get_recommendations]; rewrite Hm;
    cbn -[forallb lookup get_recommendations]; rewrite Ed; reflexivity.
Qed.

Lemma generate_response_without_metadata (l : list json) (d : disk)
    (st : store) :
  metadata_model_date (model_data st) = None ->
  value_of (generate_response environ l d st) =
  Ok (Failure 500 "Recommendation failed").
Proof.
  destruct st as [md last]. cbn [model_data].
  unfold generate_response, call_get_recommendations.
  destruct md as [c|[rv|] others]; [reflexivity| |];
    cbn [metadata_model_date]; intros Hm.
  - destruct (rules_truthy rv) eqn:Rt;
      [destruct (forallb hashable l) eqn:Fh; [destruct rv as [[| |]|rs]|]|];
      (destruct (lookup "metadata" others) as [[c|kvs]|] eqn:Em;
       [|discriminate Hm|]);
      unfold_py; step_gr; rewrite ?Rt; step_gr; rewrite ?Fh; step_gr;
      rewrite ?Em; reflexivity.
  - (destruct (lookup "metadata" others) as [[c|kvs]|] eqn:Em;
       [|discriminate Hm|]);
      unfold_py; cbn -[lookup]; rewrite ?Em; reflexivity.
Qed.

Lemma generate_response_songs (l : list json) (d : disk) (st : store)
    (ok : ok_body) :
  value_of (generate_response environ l d st) = Ok (Success ok) ->
  exists rs,
    songs ok = get_recommendations (liked_names l) rs default_max_recommendations.
Proof.
  destruct st as [md last].
  unfold generate_response, call_get_recommendations.
  destruct md as [c|[rv|] others].
  - unfold_py. step_gr. discriminate.
  - destruct (rules_truthy rv) eqn:Rt;
      [destruct (forallb hashable l) eqn:Fh; [destruct rv as [[| |]|rs]|]|];
      (destruct (lookup "metadata" others) as [[c|kvs]|] eqn:Em;
       [|destruct (lookup "model_date" kvs) eqn:Ed|]);
      unfold_py; step_gr; rewrite ?Rt; step_gr; rewrite ?Fh; step_gr;
      rewrite ?Em; step_gr; rewrite ?Ed; step_gr;
      try discriminate; intros H; inversion H; subst;
      first [ eexists; reflexivity | now exists [] ].
  - (destruct (lookup "metadata" others) as [[c|kvs]|] eqn:Em;
       [|destruct (lookup "model_date" kvs) eqn:Ed|]);
      unfold_py; cbn -[lookup]; rewrite ?Em; cbn -[lookup]; rewrite ?Ed;
      cbn -[lookup]; try discriminate; intros H; inversion H; subst;
      now exists [].
Qed.

End ResponseFacts.


(** *** Responses of the handler *)

Lemma generate_response_cases (environ : list (string * string))
    (l : list json) (d : disk) (st : store) :
  (exists ok, value_of (generate_response environ l d st) = Ok (Success ok)) \/
  value_of (generate_response environ l d st)
    = Ok (Failure 500 "Recommendation failed").
Proof.
  destruct (metadata_model_date (model_data st)) as [date|] eqn:Hm;
    [|right; now apply generate_response_without_metadata].
  destruct st as [md last]. cbn [model_data] in Hm.
  destruct md as [c|rv others]; [discriminate|]. cbn [metadata_model_date] in Hm.
  destruct (lookup "metadata" others) as [[c|mkvs]|] eqn:Em; try discriminate.
  clear Hm. unfold generate_response, call_get_recommendations.
  destruct rv as [rv|].
  - destruct (rules_truthy rv) eqn:Rt;
      [destruct (forallb hashable l) eqn:Fh; [destruct rv as [[| |]|rs]|]|];
      destruct (lookup "model_date" mkvs) eqn:Ed;
      unfold_py;
      cbn -[rules_truthy forallb lookup get_recommendations scalar_truthy];
      rewrite ?Rt;
      cbn -[rules_truthy forallb lookup get_recommendations scalar_truthy];
      rewrite ?Fh;
      cbn -[rules_truthy forallb lookup get_recommendations scalar_truthy];
      rewrite ?Em;
      cbn -[rules_truthy forallb lookup get_recommendations scalar_truthy];
      rewrite ?Ed;
      first [ right; reflexivity | left; eexists; reflexivity ].
  - destruct (lookup "model_date" mkvs) eqn:Ed;
      unfold_py; cbn -[lookup]; rewrite ?Em; cbn -[lookup]; rewrite ?Ed;
      left; eexists; reflexivity.
Qed.

(** While a model is held the handler never answers 503. *)
Lemma serve_with_model_not_503 (environ : list (string * string))
    (b : body) (d : disk) (st : store) :
  is_None (model_data st) = false ->
  status_code (fst (fst (serve environ b d st))) <> 503%Z.
Proof.
  intros Hn. destruct (rejected_request b) eqn:Hr.
  { destruct (serve_rejected environ b d st Hn Hr) as [msg ->]. discriminate. }
  destruct b as [|data]; [discriminate|].
  assert (Jt : json_truthy data = true).
  { destruct data as [| | | | |kvs]; cbn [rejected_request] in Hr;
      try (apply negb_false_iff in Hr; exact Hr).
    destruct kvs; [discriminate | reflexivity]. }
  destruct data as [|jb|q|s|l|kvs].
  - discriminate.
  - unfold serve, recommend, contains_songs. unfold_py.
    cbn -[is_None json_truthy]. rewrite Hn. cbn -[is_None json_truthy].
    rewrite Jt. discriminate.
  - unfold serve, recommend, contains_songs. unfold_py.
    cbn -[is_None json_truthy]. rewrite Hn. cbn -[is_None json_truthy].
    rewrite Jt. discriminate.
  - unfold serve, recommend, contains_songs. unfold_py.
    cbn -[is_None json_truthy String.index]. rewrite Hn.
    cbn -[is_None json_truthy String.index]. rewrite Jt.
    cbn -[is_None json_truthy String.index].
    destruct (String.index 0 "songs" s); discriminate.
  - unfold serve, recommend, contains_songs. unfold_py.
    cbn -[is_None json_truthy existsb]. rewrite Hn.
    cbn -[is_None json_truthy existsb]. rewrite Jt.
    cbn -[is_None json_truthy existsb].
    destruct (existsb (is_JStr "songs") l); discriminate.
  - cbn [rejected_request] in Hr.
    destruct (lookup "songs" kvs) as [[| | | |l|]|] eqn:Es; try discriminate.
    destruct (generate_response_cases environ l d st) as [[ok G]|G];
      rewrite (serve_valid_request environ kvs l d st _ Es Hn G); discriminate.
Qed.

Lemma health_run (environ : list (string * string)) (now : string)
    (d : disk) (st : store) :
  health environ now d st =
  (Ok ({| status := if negb (is_None (model_data st))
                    then "healthy" else "unhealthy";
          model_loaded := negb (is_None (model_data st));
          health_version := SERVER_VERSION environ;
          timestamp := now |},
       if negb (is_None (model_data st)) then 200%Z else 503%Z),
   st, [EAcquire; EReadStore; ERelease]).
Proof. reflexivity. Qed.

Lemma liked_names_In (l : list json) (s : string) :
  In (JStr s) l -> In s (liked_names l).
Proof.
  intros H. unfold liked_names. apply in_flat_map.
  exists (JStr s). split; [assumption | now left].
Qed.

Lemma liked_names_map (songs : list string) :
  liked_names (map JStr songs) = songs.
Proof.
  unfold liked_names. induction songs as [|s songs IH]; simpl; congruence.
Qed.

Lemma hashable_map (songs : list string) :
  forallb hashable (map JStr songs) = true.
Proof. induction songs as [|s songs IH]; simpl; auto. Qed.

(** *** Further properties of the handler and of the health endpoint *)

(** ** X8: a request whose ['songs'] is a list of hashable values, served
    from a model whose ['rules'] is a list and whose ['metadata'] is a dict,
    gets status 200 with the engine's result for the string members of the
    list (limit 10), the echo of the list, the count of the result, the
    server's version and the metadata's ['model_date'] (['unknown'] when the
    metadata has none). *)
Theorem X8_valid_request_gets_engine_result (environ : list (string * string))
    (kvs : list (string * json)) (l : list json) (d : disk)
    (rules : list rule) (others : list (string * meta_val))
    (last : option Q) (mkvs : list (string * scalar)) :
  lookup "songs" kvs = Some (JArr l) ->
  forallb hashable l = true ->
  lookup "metadata" others = Some (MDict mkvs) ->
  fst (fst (serve environ (Body (JObj kvs)) d
              {| model_data := PDict (Some (RList rules)) others;
                 model_last_modified := last |})) =
  Success
    {| songs := get_recommendations (liked_names l) rules 10;
       version := SERVER_VERSION environ;
       model_date := match lookup "model_date" mkvs with
                     | Some v => v
                     | None => SStr "unknown"
                     end;
       input_songs := l;
       num_recommendations :=
         List.length (get_recommendations (liked_names l) rules 10) |}.
Proof.
  intros Hs Hh Hm. apply serve_valid_request with (l := l);
    [assumption | reflexivity |].
  now apply generate_response_well_formed.
Qed.

Lemma X8_witness :
  fst (fst (serve [] (Body (JObj [("songs", JArr [JStr "X"; JNum 3])])) None
              {| model_data :=
                   PDict (Some (RList scenario_A)) [("metadata", MDict [])];
                 model_last_modified := None |})) =
  Success
    {| songs := ["Y"; "Z"];
       version := "1.0";
       model_date := SStr "unknown";
       input_songs := [JStr "X"; JNum 3];
       num_recommendations := 2 |}.
Proof.
  exact (X8_valid_request_gets_engine_result []
           [("songs", JArr [JStr "X"; JNum 3])] [JStr "X"; JNum 3] None
           scenario_A [("metadata", MDict [])] None [] eq_refl eq_refl eq_refl).
Defined.

(** ** X9: when the object held as model is not a dict with a ['metadata']
    dict, every request that passes validation is answered with status 500
    "Recommendation failed", while the health endpoint reports the service
    as healthy. *)
Theorem X9_model_without_metadata_fails_requests
    (environ : list (string * string)) (now : string)
    (kvs : list (string * json)) (l : list json) (d : disk) (st : store) :
  lookup "songs" kvs = Some (JArr l) ->
  is_None (model_data st) = false ->
  metadata_model_date (model_data st) = None ->
  fst (fst (serve environ (Body (JObj kvs)) d st))
    = Failure 500 "Recommendation failed"
  /\ exists hb, value_of (health environ now d st) = Ok (hb, 200%Z)
                /\ status hb = "healthy".
Proof.
  intros Hs Hn Hm. split.
  - apply serve_valid_request with (l := l); try assumption.
    now apply generate_response_without_metadata.
  - rewrite health_run, Hn. eexists. split; reflexivity.
Qed.

Lemma X9_witness :
  fst (fst (serve [] liked_X None
              {| model_data := bad_model; model_last_modified := Some 2 |}))
    = Failure 500 "Recommendation failed"
  /\ exists hb,
       value_of (health [] "now" None
                   {| model_data := bad_model; model_last_modified := Some 2 |})
         = Ok (hb, 200%Z)
       /\ status hb = "healthy".
Proof.
  exact (X9_model_without_metadata_fails_requests [] "now"
           [("songs", JArr [JStr "X"])] [JStr "X"] None
           {| model_data := bad_model; model_last_modified := Some 2 |}
           eq_refl eq_refl eq_refl).
Defined.

(** ** X10: every status-200 response lists at most ten songs, lists no song
    twice, lists no song that the request named, and reports the length of
    the list as [num_recommendations]. *)
Theorem X10_success_response_is_well_formed (environ : list (string * string))
    (b : body) (d : disk) (st : store) (ok : ok_body) :
  fst (fst (serve environ b d st)) = Success ok ->
  (List.length (songs ok) <= 10)%nat /\
  NoDup (songs ok) /\
  (forall s, In s (songs ok) -> ~ In (JStr s) (input_songs ok)) /\
  num_recommendations ok = List.length (songs ok).
Proof.
  intros H.
  assert (Hn : is_None (model_data st) = false).
  { destruct (is_None (model_data st)) eqn:E; [|reflexivity].
    rewrite serve_absent in H by assumption. discriminate. }
  destruct (serve_success environ b d st ok H) as [_ [_ [Hnum [kvs [-> Hs]]]]].
  destruct (generate_response_returns environ (input_songs ok) d st)
    as [resp G].
  rewrite (serve_valid_request environ kvs _ d st resp Hs Hn G) in H.
  subst resp.
  destruct (generate_response_songs environ _ d st ok G) as [rs E].
  rewrite E in Hnum |- *. repeat split.
  - apply (EngineFacts.result_length_le _ rs 10). lia.
  - apply EngineFacts.result_NoDup.
  - intros s Hin Hliked. apply EngineFacts.In_result_not_liked in Hin.
    apply Hin. now apply liked_names_In.
  - exact Hnum.
Qed.

Lemma X10_witness :
  fst (fst (serve [] liked_X None good_store)) =
    Success {| songs := ["Y"; "Z"];
               version := "1.0";
               model_date := SStr "2024-01-01T12:00:00";
               input_songs := [JStr "X"];
               num_recommendations := 2 |}
  /\ (2 <= 10)%nat.
Proof.
  assert (E : fst (fst (serve [] liked_X None good_store)) =
    Success {| songs := ["Y"; "Z"];
               version := "1.0";
               model_date := SStr "2024-01-01T12:00:00";
               input_songs := [JStr "X"];
               num_recommendations := 2 |}) by reflexivity.
  split; [exact E|].
  exact (proj1 (X10_success_response_is_well_formed [] liked_X None good_store
                  _ E)).
Defined.

(** ** X11: the health endpoint and the recommend endpoint agree on whether a
    model is held: [health] answers 503 exactly when [recommend] answers 503,
    whatever the request; [health] only reads, under the lock, and has
    released the lock before it builds its response. *)
Theorem X11_health_agrees_with_recommend (environ : list (string * string))
    (now : string) (b : body) (d : disk) (st : store) :
  (exists hb code,
     health environ now d st = (Ok (hb, code), st, [EAcquire; EReadStore; ERelease])
     /\ (code = 503%Z <->
         status_code (fst (fst (serve environ b d st))) = 503%Z)
     /\ (code = 200%Z \/ code = 503%Z)
     /\ model_loaded hb = negb (is_None (model_data st))
     /\ (status hb = "healthy" <-> code = 200%Z)).
Proof.
  rewrite health_run. do 2 eexists. split; [reflexivity|].
  destruct (is_None (model_data st)) eqn:Hn; cbn [negb].
  - rewrite serve_absent by assumption. cbn.
    repeat split; auto; try discriminate.
  - pose proof (serve_with_model_not_503 environ b d st Hn) as H503.
    repeat split; auto; try discriminate; intros; contradiction.
Qed.


(** *** Further properties of the poller and of the initial load *)

Lemma truthy_not_None (v : pyobj) : truthy v = true -> is_None v = false.
Proof. destruct v as [[| |]|]; simpl; intros H; congruence. Qed.

(** Whether an iteration reads the file at all. *)
Lemma poll_tick_loads (d : disk) (st : store) :
  loads (trace_of (check_and_reload_model_once d st)) =
  match d with
  | None => false
  | Some f => needs_reload (model_last_modified st) (mtime f)
  end.
Proof.
  poll_tick_cases d st ltac:(reflexivity).
Qed.

Lemma Qgtb_irrefl (q : Q) : Qgtb q q = false.
Proof. apply EngineFacts.Qgtb_false. lra. Qed.

Lemma initialize_app_store (d : disk) (st : store) :
  store_of (initialize_app d st) =
  {| model_data := unpickled d;
     model_last_modified :=
       match d with
       | Some f => if truthy (unpickled d) then Some (mtime f)
                   else model_last_modified st
       | None => model_last_modified st
       end |}.
Proof.
  destruct d as [[m [|v]]|]; try reflexivity.
  cbn [unpickled content mtime]. destruct (truthy v) eqn:Tv;
    unfold initialize_app; unfold_py; step_py; rewrite Tv; reflexivity.
Qed.

Lemma unpublished_ticks_keep_store (ds : list disk) (st : store) :
  Forall (fun d => truthy (unpickled d) = false) ds ->
  check_and_reload_model ds st = st.
Proof.
  intros H. revert st.
  induction H as [|d ds Hd _ IH]; intros st; simpl; [reflexivity|].
  rewrite poll_tick_store, Hd, IH.
  destruct d; [now rewrite andb_false_r | reflexivity].
Qed.

(** ** X12: the poller never takes a model away: once [model_data] is not
    [None] it stays that way through any number of iterations, whatever
    appears on disk, so the health endpoint keeps answering 200. *)
Theorem X12_model_is_never_lost (environ : list (string * string))
    (now : string) (ds : list disk) (d : disk) (st : store) :
  is_None (model_data st) = false ->
  is_None (model_data (check_and_reload_model ds st)) = false
  /\ exists hb,
       value_of (health environ now d (check_and_reload_model ds st))
       = Ok (hb, 200%Z).
Proof.
  intros H.
  assert (Hkeep : is_None (model_data (check_and_reload_model ds st)) = false).
  { revert st H. induction ds as [|d0 ds IH]; intros st H; simpl; [exact H|].
    apply IH. rewrite poll_tick_store. destruct d0 as [f|]; [|exact H].
    destruct (needs_reload (model_last_modified st) (mtime f)
              && truthy (unpickled (Some f))) eqn:E; [|exact H].
    apply andb_true_iff in E. now apply truthy_not_None. }
  split; [exact Hkeep|]. rewrite health_run, Hkeep. eexists. reflexivity.
Qed.

Lemma X12_witness :
  is_None (model_data good_store) = false /\
  is_None (model_data
             (check_and_reload_model [Some garbage_file; None; Some bad_file]
                good_store)) = false.
Proof.
  split; [reflexivity|].
  exact (proj1 (X12_model_is_never_lost [] "now"
                  [Some garbage_file; None; Some bad_file] None good_store
                  eq_refl)).
Defined.

(** ** X13: the recorded modification time never moves backwards: after any
    number of iterations it is still set and at least what it was. *)
Theorem X13_recorded_mtime_never_decreases (ds : list disk) (st : store)
    (t : Q) :
  model_last_modified st = Some t ->
  exists t',
    model_last_modified (check_and_reload_model ds st) = Some t' /\ t <= t'.
Proof.
  revert st t. induction ds as [|d ds IH]; intros st t H; simpl.
  - exists t. split; [exact H | lra].
  - assert (Hstep : exists t1,
              model_last_modified (store_of (check_and_reload_model_once d st))
                = Some t1 /\ t <= t1).
    { rewrite poll_tick_store. destruct d as [f|];
        [|exists t; split; [exact H | lra]].
      rewrite H. cbn [needs_reload].
      destruct (Qgtb (mtime f) t) eqn:G; cbn [andb];
        [|exists t; split; [exact H | lra]].
      destruct (truthy (unpickled (Some f)));
        [|exists t; split; [exact H | lra]].
      exists (mtime f). split; [reflexivity|].
      apply EngineFacts.Qgtb_true in G. lra. }
    destruct Hstep as [t1 [H1 Hle1]].
    destruct (IH _ _ H1) as [t' [H' Hle']].
    exists t'. split; [exact H' | lra].
Qed.

Lemma X13_witness :
  model_last_modified good_store = Some 1 /\
  exists t',
    model_last_modified
      (check_and_reload_model [Some bad_file; Some good_file] good_store)
      = Some t' /\ 1 <= t'.
Proof.
  split; [reflexivity|].
  exact (X13_recorded_mtime_never_decreases [Some bad_file; Some good_file]
           good_store 1 eq_refl).
Defined.

(** ** X14: an unchanged file is not read again: running the iteration a
    second time on the same disk state leaves the store as the first run
    left it, and when the file holds an object that counts as true the
    second run does not read the file at all. *)
Theorem X14_unchanged_file_is_not_reloaded (d : disk) (st : store) :
  store_of (check_and_reload_model_once d
              (store_of (check_and_reload_model_once d st)))
    = store_of (check_and_reload_model_once d st)
  /\ (truthy (unpickled d) = true ->
      loads (trace_of (check_and_reload_model_once d
                         (store_of (check_and_reload_model_once d st))))
        = false).
Proof.
  rewrite poll_tick_loads, !poll_tick_store.
  destruct d as [f|]; [|split; reflexivity].
  destruct (truthy (unpickled (Some f))) eqn:Tv;
    destruct (needs_reload (model_last_modified st) (mtime f)) eqn:N;
    cbn [andb model_last_modified needs_reload];
    rewrite ?N, ?Qgtb_irrefl; cbn [andb];
    split; try reflexivity; discriminate.
Qed.

Lemma X14_witness :
  truthy (unpickled (Some good_file)) = true /\
  loads (trace_of (check_and_reload_model_once (Some good_file)
                     (store_of (check_and_reload_model_once (Some good_file)
                                  initial_store)))) = false.
Proof.
  split; [reflexivity|].
  exact (proj2 (X14_unchanged_file_is_not_reloaded (Some good_file)
                  initial_store) eq_refl).
Defined.

(** ** X15: a file that cannot be published is read again on every
    iteration: as long as the file is newer than the recorded time and does
    not yield an object that counts as true, each iteration reads and parses
    it anew under the lock and leaves the store unchanged, however many
    iterations have already failed. *)
Theorem X15_broken_file_is_retried_forever (f : file) (st : store) (n : nat) :
  needs_reload (model_last_modified st) (mtime f) = true ->
  truthy (unpickled (Some f)) = false ->
  check_and_reload_model (repeat (Some f) n) st = st
  /\ loads (trace_of (check_and_reload_model_once (Some f)
                        (check_and_reload_model (repeat (Some f) n) st)))
     = true.
Proof.
  intros N Tv.
  assert (H : check_and_reload_model (repeat (Some f) n) st = st).
  { apply unpublished_ticks_keep_store.
    apply Forall_forall. intros d Hd. apply repeat_spec in Hd. now subst. }
  split; [exact H|]. now rewrite H, poll_tick_loads.
Qed.

Lemma X15_witness :
  needs_reload (model_last_modified good_store) (mtime garbage_file) = true /\
  truthy (unpickled (Some garbage_file)) = false /\
  loads (trace_of (check_and_reload_model_once (Some garbage_file)
                     (check_and_reload_model (repeat (Some garbage_file) 3)
                        good_store))) = true.
Proof.
  split; [reflexivity|]. split; [reflexivity|].
  exact (proj2 (X15_broken_file_is_retried_forever garbage_file good_store 3
                  eq_refl eq_refl)).
Defined.

(** ** X16: the initial load and the poller fit together: when the file
    holds an object that counts as true, [initialize_app] stores it together
    with the file's modification time, and the first iteration of the poller
    on the unchanged file neither reads the file again nor changes the
    store. *)
Theorem X16_initial_load_is_not_repeated (f : file) :
  truthy (unpickled (Some f)) = true ->
  store_of (initialize_app (Some f) initial_store) =
    {| model_data := unpickled (Some f);
       model_last_modified := Some (mtime f) |}
  /\ loads (trace_of (check_and_reload_model_once (Some f)
                        (store_of (initialize_app (Some f) initial_store))))
     = false
  /\ store_of (check_and_reload_model_once (Some f)
                 (store_of (initialize_app (Some f) initial_store)))
     = store_of (initialize_app (Some f) initial_store).
Proof.
  intros Tv. rewrite poll_tick_loads, poll_tick_store, initialize_app_store, Tv.
  cbn [model_last_modified needs_reload]. rewrite Qgtb_irrefl.
  repeat split; reflexivity.
Qed.

Lemma X16_witness :
  truthy (unpickled (Some good_file)) = true /\
  store_of (initialize_app (Some good_file) initial_store) = good_store.
Proof.
  split; [reflexivity|].
  exact (proj1 (X16_initial_load_is_not_repeated good_file eq_refl)).
Defined.

(** ** X17: [initialize_app] stores whatever [load_model] returned.  If the
    file unpickles to an object that is not [None] but counts as false (an
    empty dict, an empty string, zero), the store holds it with no
    modification time; the poller never replaces it while the file keeps
    yielding such objects; the health endpoint answers 200 and every request
    that passes validation is answered with 500. *)
Theorem X17_false_initial_object_is_kept (environ : list (string * string))
    (now : string) (d : disk) (ds : list disk)
    (kvs : list (string * json)) (l : list json) (d' : disk) :
  is_None (unpickled d) = false ->
  truthy (unpickled d) = false ->
  Forall (fun d0 => truthy (unpickled d0) = false) ds ->
  lookup "songs" kvs = Some (JArr l) ->
  check_and_reload_model ds (store_of (initialize_app d initial_store)) =
    {| model_data := unpickled d; model_last_modified := None |}
  /\ (exists hb,
        value_of (health environ now d'
                    (check_and_reload_model ds
                       (store_of (initialize_app d initial_store))))
        = Ok (hb, 200%Z))
  /\ fst (fst (serve environ (Body (JObj kvs)) d'
                 (check_and_reload_model ds
                    (store_of (initialize_app d initial_store)))))
     = Failure 500 "Recommendation failed".
Proof.
  intros Hn Tv Hds Hs.
  assert (E : check_and_reload_model ds (store_of (initialize_app d initial_store))
              = {| model_data := unpickled d; model_last_modified := None |}).
  { rewrite unpublished_ticks_keep_store by assumption.
    rewrite initialize_app_store, Tv. destruct d; reflexivity. }
  rewrite E. split; [reflexivity|]. split.
  - rewrite health_run. cbn [model_data]. rewrite Hn. eexists. reflexivity.
  - apply serve_valid_request with (l := l); try assumption.
    apply generate_response_without_metadata. cbn [model_data].
    destruct (unpickled d) as [c|[rv|] [|kv others]]; try reflexivity;
      discriminate.
Qed.

Lemma X17_witness :
  fst (fst (serve [] liked_X None
              (check_and_reload_model
                 [Some {| mtime := 1; content := Pickle (PDict None []) |}]
                 (store_of (initialize_app
                              (Some {| mtime := 1;
                                       content := Pickle (PDict None []) |})
                              initial_store)))))
  = Failure 500 "Recommendation failed".
Proof.
  refine (proj2 (proj2 (X17_false_initial_object_is_kept [] "now"
            (Some {| mtime := 1; content := Pickle (PDict None []) |})
            [Some {| mtime := 1; content := Pickle (PDict None []) |}]
            [("songs", JArr [JStr "X"])] [JStr "X"] None
            eq_refl eq_refl _ eq_refl))).
  repeat constructor.
Defined.


End ServerFacts.

(* ================================================================== *)
(** ** Properties of the client talking to the server *)
(* ================================================================== *)

Module ClientFacts.
Import Engine Server.

Lemma payload_served (environ : list (string * string)) (songs : list string)
    (d : disk) (st : store) (resp : response) :
  is_None (model_data st) = false ->
  value_of (generate_response environ (map JStr songs) d st) = Ok resp ->
  fst (fst (serve environ (Client.payload songs) d st)) = resp.
Proof.
  intros Hn G. unfold Client.payload.
  now apply ServerFacts.serve_valid_request with (l := map JStr songs).
Qed.

(** ** X18: the request the client builds always passes the server's
    validation: for any list of song names, and whenever the server holds a
    model, the answer is either a status-200 response or the status-500
    "Recommendation failed" response -- never a 400, and no exception leaves
    the handler. *)
Theorem X18_client_request_is_never_rejected (environ : list (string * string))
    (songs : list string) (d : disk) (st : store) :
  is_None (model_data st) = false ->
  (exists ok, fst (fst (serve environ (Client.payload songs) d st)) = Success ok)
  \/ fst (fst (serve environ (Client.payload songs) d st))
     = Failure 500 "Recommendation failed".
Proof.
  intros Hn.
  destruct (ServerFacts.generate_response_cases environ (map JStr songs) d st)
    as [[ok G]|G]; [left; exists ok | right]; now apply payload_served.
Qed.

Lemma X18_witness :
  is_None (model_data good_store) = false /\
  ((exists ok, fst (fst (serve [] (Client.payload []) None good_store)) = Success ok)
   \/ fst (fst (serve [] (Client.payload []) None good_store))
      = Failure 500 "Recommendation failed").
Proof.
  split; [reflexivity|].
  exact (X18_client_request_is_never_rejected [] [] None good_store eq_refl).
Defined.

(** ** X19: client and server end to end: when the request is delivered and
    the server holds a model whose ['rules'] is a list and whose ['metadata']
    is a dict, the client's [get_recommendations] returns the response whose
    songs are the engine's result for the given names with limit 10, and
    [main] exits with code 0. *)
Theorem X19_client_receives_engine_result (environ : list (string * string))
    (d : disk) (rules : list rule) (others : list (string * meta_val))
    (last : option Q) (mkvs : list (string * scalar)) (names : list string) :
  lookup "metadata" others = Some (MDict mkvs) ->
  Client.get_recommendations environ d
    {| model_data := PDict (Some (RList rules)) others;
       model_last_modified := last |} names Client.Delivered =
  Some {| songs := get_recommendations names rules 10;
          version := SERVER_VERSION environ;
          model_date := match lookup "model_date" mkvs with
                        | Some v => v
                        | None => SStr "unknown"
                        end;
          input_songs := map JStr names;
          num_recommendations :=
            List.length (get_recommendations names rules 10) |}
  /\ Client.main environ d
       {| model_data := PDict (Some (RList rules)) others;
          model_last_modified := last |} names Client.Delivered = 0%Z.
Proof.
  intros Hm.
  pose proof (ServerFacts.generate_response_well_formed environ
                (map JStr names) d rules others last mkvs
                (ServerFacts.hashable_map names) Hm) as G.
  rewrite ServerFacts.liked_names_map in G.
  apply payload_served in G; [|reflexivity].
  unfold Client.main, Client.get_recommendations. rewrite G.
  split; reflexivity.
Qed.

Lemma X19_witness :
  Client.main [] None good_store ["X"] Client.Delivered = 0%Z.
Proof.
  exact (proj2 (X19_client_receives_engine_result [] None scenario_A
                  [("metadata", MDict [("model_date", SStr "2024-01-01T12:00:00");
                                       ("version", SStr "2.0")])]
                  (Some 1) _ ["X"] eq_refl)).
Defined.

(** ** X20: the client's health check and its request agree in one
    direction: if the request succeeds ([main] exits with 0) then a health
    check of the same server over a working connection reports healthy; so
    when the health check of a reachable server fails, [main] exits with 1
    whatever songs are given. *)
Theorem X20_exit_code_needs_healthy_server (environ : list (string * string))
    (d : disk) (st : store) (now : string) (songs : list string)
    (net : Client.network) :
  (Client.main environ d st songs net = 0%Z ->
   Client.check_health environ d st now Client.Delivered = true)
  /\ (Client.check_health environ d st now Client.Delivered = false ->
      Client.main environ d st songs net = 1%Z)
  /\ (net <> Client.Delivered -> Client.main environ d st songs net = 1%Z).
Proof.
  assert (Hh : Client.check_health environ d st now Client.Delivered
               = negb (is_None (model_data st))).
  { unfold Client.check_health. rewrite ServerFacts.health_run. cbn.
    destruct (is_None (model_data st)); reflexivity. }
  assert (Habsent : is_None (model_data st) = true ->
                    Client.main environ d st songs net = 1%Z).
  { intros Hn. unfold Client.main, Client.get_recommendations.
    destruct net; try reflexivity.
    now rewrite ServerFacts.serve_absent. }
  rewrite Hh. split; [|split].
  - intros H. destruct (is_None (model_data st)); [|reflexivity].
    rewrite Habsent in H by reflexivity. discriminate.
  - intros H. apply Habsent. now destruct (is_None (model_data st)).
  - intros H. unfold Client.main, Client.get_recommendations.
    destruct net; try reflexivity. contradiction.
Qed.

Lemma X20_witness :
  Client.check_health [] None initial_store "now" Client.Delivered = false /\
  Client.main [] None initial_store ["X"] Client.Delivered = 1%Z.
Proof.
  split; [reflexivity|].
  exact (proj1 (proj2 (X20_exit_code_needs_healthy_server [] None initial_store
                         "now" ["X"] Client.Delivered)) eq_refl).
Defined.

End ClientFacts.
